(** * detexe.pea.blackbox: the manipulation decoders of the black-box attacks

    A shallow embedding of the four problem classes of
    [detexe/pea/blackbox]:

    - [c_black_box_padding_evasion.py]  (module [Padding]),
    - [c_blackbox_header_problem.py]    (module [Header]),
    - [c_gamma_evasion.py]              (modules [Gamma], [Population]),
    - [c_gamma_sections_evasion.py]     (module [GammaSections]).

    Conventions of the embedding.

    - A [CArray] of shape (1, n) holding a sample is the list of its n
      integer entries ([list Z]); entries are Python/numpy integers, so
      nothing in the type keeps them below 256.  Where the code stores
      into the array, the integer dtype of the array comes with it.
    - A numpy [float64] is embedded as the rational it denotes ([Q]).
      A product of two floats is the exact product rounded to binary64,
      to the nearest value and to the even mantissa on a tie, subnormal
      results included ([Py.fmul]).  The format has no largest value
      here: infinities and NaN, and with them the overflow of a product,
      are outside the model.
    - The folder listing, libmagic, lief's parser and the pickled cache
      files that the harvest of the corpus goes through are the fields of
      an explicit [world].
    - A Python exception is a value of [exn]; code that mutates [self]
      runs in a state-and-exception monad in which the state survives a
      raise, as the attributes of a Python object do. *)

From Stdlib Require Import ZArith QArith Qround Qabs Qpower Lia Lqa Ascii String.
From Stdlib Require Floats.
From stdpp Require Import base list list_numbers strings countable gmap.

Local Open Scope Z_scope.

(** ** Python and numpy primitives *)

Module Py.

Inductive exn : Type :=
| IndexError      (* sequence index out of range *)
| ValueError      (* bytes() of a value outside range(256); argmin of an empty sequence *)
| StructError     (* struct.unpack on a buffer of the wrong size *)
| AttributeError  (* a method called on the None that lief.PE.parse returns *)
| TypeError       (* a constructor handed None in place of an object *)
| RebuildError.   (* the PE builder refusing the sections registered *)

Inductive result (A : Type) : Type :=
| Ok (a : A)
| Raise (e : exn).
Arguments Ok {A} a.
Arguments Raise {A} e.

(** [range(a, b)] for naturals [a], [b]. *)
Definition range (a b : nat) : list nat := seq a (b - a).
Arguments range : simpl never.

(** Rounding toward zero, the float-to-integer conversion of C. *)
Definition trunc (q : Q) : Z := Z.quot (Qnum q) (Z.pos (Qden q)).

Definition int64_min : Z := - 2 ^ 63.
Definition int64_max : Z := 2 ^ 63 - 1.

(** [a.astype(np.int)] on one entry: [np.int] is the platform integer
    (int64); the conversion truncates toward zero.  A value that does
    not fit is converted to the "integer indefinite" value of the
    x86-64 conversion instruction, [int64_min]. *)
Definition astype_int (q : Q) : Z :=
  let z := trunc q in
  if (int64_min <=? z) && (z <=? int64_max) then z else int64_min.

(** Python 3 [round(v)]: to the nearest integer, ties to the even one. *)
Definition round (q : Q) : Z :=
  let n := Qnum q in
  let d := Z.pos (Qden q) in
  let f := (2 * n + d) / (2 * d) in
  if ((2 * n + d) mod (2 * d) =? 0) && Z.odd f then f - 1 else f.

(** The binary exponent of a non-zero rational: the [k] with
    [2^k <= |q| < 2^(k+1)]. *)
Definition ilog2 (q : Q) : Z :=
  let k := Z.log2 (Z.abs (Qnum q)) - Z.log2 (Z.pos (Qden q)) in
  if Qle_bool (2 ^ k) (Qabs q) then k else k - 1.

(** The exponent of the unit in the last place of the binary64 values
    around [q]: 53 significant bits, and the spacing [2^-1074] of the
    subnormal values below [2^-1022]. *)
Definition ulp_exponent (q : Q) : Z := Z.max (ilog2 q - 52) (-1074).

(** Rounding to binary64, to nearest and to the even mantissa on a tie:
    what every float64 operation of numpy and of Python does to its
    exact result. *)
Definition round64 (q : Q) : Q :=
  if Qeq_bool q 0 then 0%Q
  else
    let e := ulp_exponent q in
    (inject_Z (round (q * 2 ^ (- e))) * 2 ^ e)%Q.

(** [a * b] for two float64. *)
Definition fmul (a b : Q) : Q := round64 (a * b).

(** What makes [f] the binary64 value of the exact result [q]: zero for
    zero; otherwise a multiple of the unit in the last place around [q],
    no farther from [q] than half a unit, and the even multiple when [q]
    lies half-way between two. *)
Definition binary64_nearest (q f : Q) : Prop :=
  ((q == 0)%Q -> (f == 0)%Q)
  /\ (~ (q == 0)%Q ->
      exists m : Z,
        (f == inject_Z m * 2 ^ ulp_exponent q)%Q
        /\ (Qabs (f - q) <= (1 # 2) * 2 ^ ulp_exponent q)%Q
        /\ ((Qabs (f - q) == (1 # 2) * 2 ^ ulp_exponent q)%Q ->
            Z.even m = true)).

(** The float64 an integer operand of a float operation is converted
    to. *)
Definition of_int (n : Z) : Q := round64 (inject_Z n).

(** [content[:k]]: a negative bound counts from the end. *)
Definition slice_to {A : Type} (l : list A) (k : Z) : list A :=
  if 0 <=? k then take (Z.to_nat k) l
  else take (Z.to_nat (Z.of_nat (length l) + k)) l.

(** [l[i]] for a natural index. *)
Definition getitem {A : Type} (l : list A) (i : nat) : result A :=
  match l !! i with
  | Some a => Ok a
  | None => Raise IndexError
  end.

(** [bytes(l)]: every entry has to be in [range(256)]. *)
Definition is_byte (b : Z) : Prop := 0 <= b <= 255.
Definition is_byteb (b : Z) : bool := (0 <=? b) && (b <=? 255).

Definition bytes (l : list Z) : result (list Z) :=
  if forallb is_byteb l then Ok l else Raise ValueError.

(** [struct.unpack("<I", b)[0]]: four bytes, least significant first. *)
Definition unpack_le_u32 (b : list Z) : result Z :=
  match b with
  | [b0; b1; b2; b3] => Ok (b0 + 256 * b1 + 65536 * b2 + 16777216 * b3)
  | _ => Raise StructError
  end.

(** [(t * 255).astype(np.int)], the line both byte-level decoders
    start with: the product is a float64 product. *)
Definition byte_values (t : list Q) : list Z :=
  map (fun ti => astype_int (fmul ti 255)) t.

(** The integer dtypes of numpy. *)
Inductive dtype : Type :=
| int8 | int16 | int32 | int64 | uint8 | uint16 | uint32 | uint64.

Definition bits (dt : dtype) : Z :=
  match dt with
  | int8 | uint8 => 8
  | int16 | uint16 => 16
  | int32 | uint32 => 32
  | int64 | uint64 => 64
  end.

Definition signed (dt : dtype) : bool :=
  match dt with
  | int8 | int16 | int32 | int64 => true
  | uint8 | uint16 | uint32 | uint64 => false
  end.

(** [a[i] = v] for an int64 [v] and an array of dtype [dt]: the value
    is converted as C converts it, by keeping its low bits. *)
Definition cast (dt : dtype) (v : Z) : Z :=
  let m := 2 ^ bits dt in
  if signed dt then (v + m / 2) mod m - m / 2 else v mod m.

(** The dtypes that have room for every byte value: all but [int8]. *)
Definition holds_bytes (dt : dtype) : bool :=
  match dt with
  | int8 => false
  | _ => true
  end.

(** Sequencing of computations that may raise. *)
Definition rbind {A B : Type} (r : result A) (k : A -> result B) : result B :=
  match r with
  | Ok a => k a
  | Raise e => Raise e
  end.

(** Latent components in the unit interval. *)
Definition unit_interval (q : Q) : Prop := (0 <= q)%Q /\ (q <= 1)%Q.

(** A list whose length is a float64: no address space has room for a
    list that is longer. *)
Definition float_len {A : Type} (l : list A) : Prop :=
  Z.of_nat (length l) <= 2 ^ 53.

(** [z] is the integer nearest to [q], the even one of the two when
    [q] lies half-way. *)
Definition nearest_even (q : Q) (z : Z) : Prop :=
  (Qabs (inject_Z z - q) <= 1 # 2)%Q
  /\ ((Qabs (inject_Z z - q) == 1 # 2)%Q -> Z.even z = true).

End Py.

(** The floats of the machine, against which [Py.fmul] is checked. *)

Module Hardware.
Import Floats.

(** The rational a finite float denotes. *)
Definition Q_of_float (f : float) : Q :=
  match Prim2SF f with
  | S754_finite s m e =>
      (inject_Z (if s then Z.neg m else Z.pos m) * 2 ^ e)%Q
  | _ => 0%Q
  end.

(** The product of the machine and [Py.fmul] give the same value. *)
Definition agree (a b : float) : bool :=
  Qeq_bool (Q_of_float (a * b)%float)
    (Py.fmul (Q_of_float a) (Q_of_float b)).

(** Fifty products: 0.1 by 5, the float nearest to 1/255 by 255, 1/3
    by 3, the float below 1 by 255 and other chosen ones; components of
    the unit interval by 255; lengths by components; factors of large
    and of small exponents; products that are subnormal. *)
Definition products : list (float * float) :=
  [(0x1.999999999999ap-4, 0x1.4000000000000p+2);
   (0x1.0101010101010p-8, 0x1.fe00000000000p+7);
   (0x1.5555555555555p-2, 0x1.8000000000000p+1);
   (0x1.fffffffffffffp-1, 0x1.fe00000000000p+7);
   (0x1.0000000000000p-1, 0x1.c000000000000p+2);
   (-0x1.999999999999ap-3, 0x1.4000000000000p+2);
   (0x1.23456789abcdep-3, 0x1.fe00000000000p+7);
   (0x0.0000000000001p-1022, 0x1.0000000000000p-1);
   (0x0.0000000000003p-1022, 0x1.0000000000000p-1);
   (0x1.fffffffffffffp-1022, 0x1.fffffffffffffp-1);
   (0x1.6e58924984ee0p-4, 0x1.fe00000000000p+7);
   (0x1.4c085929be5d0p-3, 0x1.fe00000000000p+7);
   (0x1.8da8989eaa3c8p-3, 0x1.fe00000000000p+7);
   (0x1.fa6b9e6762b58p-1, 0x1.fe00000000000p+7);
   (0x1.a1ccf7088cd4cp-1, 0x1.fe00000000000p+7);
   (0x1.bffe861d74950p-5, 0x1.fe00000000000p+7);
   (0x1.0404ae43cd7c2p-2, 0x1.fe00000000000p+7);
   (0x1.7ab69feb935bfp-1, 0x1.fe00000000000p+7);
   (0x1.67e023e0884bep-1, 0x1.fe00000000000p+7);
   (0x1.d4bef65b4c560p-4, 0x1.fe00000000000p+7);
   (0x1.cfa9c2e152daap-2, 0x1.fe00000000000p+7);
   (0x1.83a47b5330a24p-3, 0x1.fe00000000000p+7);
   (0x1.498e600000000p+19, 0x1.008b8c4b77ce8p-1);
   (0x1.400e800000000p+18, 0x1.4893c03a395a4p-2);
   (0x1.7bc1000000000p+19, 0x1.ad8d3915bfe7dp-1);
   (0x1.d061c00000000p+18, 0x1.c11e6ecd1f7ebp-1);
   (0x1.f106000000000p+17, 0x1.0e815a4782c4ep-1);
   (0x1.e748000000000p+14, 0x1.2ebe789f7ea78p-4);
   (0x1.be53000000000p+17, 0x1.0ba8901ee4391p-1);
   (0x1.d055000000000p+17, 0x1.d02396cbe0a10p-4);
   (0x1.7557000000000p+18, 0x1.49b0ac570ceb0p-5);
   (0x1.f09fc00000000p+18, 0x1.08ebfad5d212cp-3);
   (0x1.916d400000000p+19, 0x1.90e6f9967c1b0p-3);
   (0x1.221fc00000000p+18, 0x1.f8210b50ca78fp-1);
   (0x1.0bdf21f279ac4p-389, -0x1.a92d2b7943ca2p-55);
   (0x1.c18231fb9c99ap-264, -0x1.3f9b3230af582p-483);
   (0x1.f9daa0b4bcd38p+457, -0x1.321854c22f608p+106);
   (0x1.cff3c56fd1b14p-331, -0x1.446ed52668d9cp-460);
   (0x1.d625c45a3fb85p-363, -0x1.213d418fd7036p-390);
   (0x1.b44790ecf0713p-389, -0x1.4f8c4dcf3815bp-394);
   (0x1.9aa7506b348acp+456, -0x1.5a496edbfb6e4p-320);
   (0x1.a75005ea8e48dp+406, -0x1.f140d405a22b6p-442);
   (0x1.37396245a7adcp+454, -0x1.7caec1f25994cp-447);
   (0x1.f8e2fb2b5e0cdp-244, -0x1.37ba3003ee17ep+104);
   (0x1.e0c729e72d38ep-520, 0x1.b5218697875c4p-500);
   (0x1.9104ae5b8610ep-543, 0x1.b6c102efd07aap-483);
   (0x1.5a22960d46182p-569, 0x1.7aad0ce23e77ap-486);
   (0x1.dae2d3830c1c0p-585, 0x1.bef1c5f72b216p-486);
   (0x1.97d154c99f304p-550, 0x1.af45047f1c28ap-517);
   (0x1.f15c190a537b4p-554, 0x1.5e116e713fbb8p-484)]%float.

End Hardware.

(** ** The state-and-exception monad of a mutable Python object *)

Module PyM.
Import Py.

Definition M (S A : Type) : Type := S -> result A * S.

Definition ret {S A} (a : A) : M S A := fun s => (Ok a, s).
Definition raise {S A} (e : exn) : M S A := fun s => (Raise e, s).
Definition bind {S A B} (m : M S A) (k : A -> M S B) : M S B :=
  fun s => match m s with
           | (Ok a, s') => k a s'
           | (Raise e, s') => (Raise e, s')
           end.
Definition get {S} : M S S := fun s => (Ok s, s).
Definition modify {S} (f : S -> S) : M S unit := fun s => (Ok tt, f s).
Definition lift {S A} (r : result A) : M S A := fun s => (r, s).

End PyM.

Declare Scope py_scope.
Delimit Scope py_scope with py.
Notation "x <- c ;; k" := (PyM.bind c (fun x => k))
(at level 100, c at next level, right associativity) : py_scope.
Notation "c ;;; k" := (PyM.bind c (fun _ => k))
(at level 100, right associativity) : py_scope.

(** ** c_black_box_padding_evasion.py *)

Module Padding.
Import Py.

Record problem : Type := {
  latent_space_size : nat;
  invalid_value : Z;
  indexes_to_perturb : list nat
}.

(** [__init__]; the arguments of the engine (model wrapper, population
    size, iterations, debug flag, regularizer) do not reach the decoder. *)
Definition init (how_many_padding_bytes : nat) (invalid_value : Z) : problem :=
  {| latent_space_size := how_many_padding_bytes;
     invalid_value := invalid_value;
     indexes_to_perturb := range 0 how_many_padding_bytes |}.

(** [byte_values = (t * 255).astype(np.int); x_adv = x.append(byte_values)] *)
Definition apply_feasible_manipulations
    (self : problem) (t : list Q) (x : list Z) : list Z :=
  x ++ byte_values t.

End Padding.

(** ** c_blackbox_header_problem.py *)

Module Header.
Import Py PyM.

(** The attributes the class itself sets.  Offsets are naturals: they
    only ever come out of [range(2, 60)] and [range(64, pe_index)]. *)
Record problem : Type := {
  optimize_all_dos : bool;
  invalid_value : Z;
  indexes_to_perturb : list nat;
  latent_space_size : nat
}.

Definition set_indexes_to_perturb (l : list nat) (self : problem) : problem :=
  {| optimize_all_dos := optimize_all_dos self;
     invalid_value := invalid_value self;
     indexes_to_perturb := l;
     latent_space_size := latent_space_size self |}.

Definition set_latent_space_size (n : nat) (self : problem) : problem :=
  {| optimize_all_dos := optimize_all_dos self;
     invalid_value := invalid_value self;
     indexes_to_perturb := indexes_to_perturb self;
     latent_space_size := n |}.

(** [__init__]: the base class receives [latent_space_size=58]. *)
Definition init (optimize_all_dos : bool) (invalid_value : Z) : problem :=
  {| optimize_all_dos := optimize_all_dos;
     invalid_value := invalid_value;
     indexes_to_perturb := range 2 60;
     latent_space_size := 58 |}.

(** The entries at offsets [a .. b-1] of a row. *)
Definition row_slice (x : list Z) (a b : nat) : list Z :=
  take (b - a) (drop a x).

(** [x[0, a:b].tolist()[0]]: secml's [CArray] checks the bounds of a
    slice against the shape of the array, as it does those of an index,
    and raises on a row that ends before offset [b]. *)
Definition getslice (x : list Z) (a b : nat) : result (list Z) :=
  if (b <=? length x)%nat then Ok (row_slice x a b) else Raise IndexError.

(** [struct.unpack("<I", bytes(x[0, 60:64].tolist()[0]))[0]] *)
Definition read_pe_index (x : list Z) : result Z :=
  rbind (getslice x 60 64) (fun l => rbind (bytes l) unpack_le_u32).

(** [init_starting_point], up to its last line: the value returned is
    the one of the base class's initializer, to which [x] is handed
    after the attributes below have been set. *)
Definition init_starting_point (x : list Z) : M problem unit :=
  (modify (set_indexes_to_perturb (range 2 60)) ;;;
   self <- get ;;
   (if optimize_all_dos self then
      pe_index <- lift (read_pe_index x) ;;
      modify (fun self =>
        set_indexes_to_perturb
          (indexes_to_perturb self ++ range 64 (Z.to_nat pe_index)) self)
    else ret tt) ;;;
   modify (fun self =>
     set_latent_space_size (length (indexes_to_perturb self)) self))%py.

(** The loop [for i, index in enumerate(self.indexes_to_perturb):
    x_adv[0, index] = byte_values[i]], from position [i] on, for a
    sample of dtype [dt].  The right hand side is evaluated first; both
    subscripts are bounds-checked; the int64 read from [byte_values] is
    converted to the dtype of the array it is stored in. *)
Fixpoint perturb (dt : dtype) (byte_values : list Z) (i : nat)
    (indexes : list nat) (x_adv : list Z) : result (list Z) :=
  match indexes with
  | [] => Ok x_adv
  | index :: rest =>
      rbind (getitem byte_values i) (fun v =>
        if (index <? length x_adv)%nat
        then perturb dt byte_values (S i) rest (<[index := cast dt v]> x_adv)
        else Raise IndexError)
  end.

(** [apply_feasible_manipulations], on a sample [x] of dtype [dt]:
    [x_adv = deepcopy(x)] has the dtype of [x]. *)
Definition apply_feasible_manipulations (dt : dtype)
    (self : problem) (t : list Q) (x : list Z) : result (list Z) :=
  perturb dt (byte_values t) 0 (indexes_to_perturb self) x.

(** Notions in which the properties of the class are stated. *)

(** The unsigned little-endian 32-bit number held at offsets
    [o .. o+3] of a sample. *)
Definition le32_at (x : list Z) (o : nat) : Z :=
  nth o x 0 + 256 * nth (o + 1) x 0 + 65536 * nth (o + 2) x 0
  + 16777216 * nth (o + 3) x 0.

(** The configurations an object of the class can be in: built by
    [__init__], then taken through [init_starting_point] any number of
    times, whether the call returned or raised. *)
Inductive reachable : problem -> Prop :=
| reach_init o iv : reachable (init o iv)
| reach_start x self :
    reachable self -> reachable (snd (init_starting_point x self)).

End Header.

(** ** c_gamma_evasion.py *)

Module Gamma.
Import Py.

Record problem : Type := {
  section_population : list (list Z);
  latent_space_size : nat;
  payload_max_size : nat
}.

(** [__init__]: the latent dimension is the size of the corpus. *)
Definition init (section_population : list (list Z)) : problem :=
  {| section_population := section_population;
     latent_space_size := length section_population;
     payload_max_size := sum_list (map length section_population) |}.

(** [int(round(len(content) * t[i]))]: the length is converted to
    float64 and the product is a float64 product. *)
Definition take_count (content : list Z) (ti : Q) : Z :=
  round (fmul (of_int (Z.of_nat (length content))) ti).

(** [content[: int(round(len(content) * t[i]))]] *)
Definition content_to_append (content : list Z) (ti : Q) : list Z :=
  slice_to content (take_count content ti).

(** The body of [for i in range(t.shape[-1])], over the indices left. *)
Fixpoint append_loop (section_population : list (list Z)) (t : list Q)
    (indices : list nat) (x_adv : list Z) : result (list Z) :=
  match indices with
  | [] => Ok x_adv
  | i :: rest =>
      rbind (getitem section_population i) (fun content =>
      rbind (getitem t i) (fun ti =>
        append_loop section_population t rest
          (x_adv ++ content_to_append content ti)))
  end.

Definition apply_feasible_manipulations
    (self : problem) (t : list Q) (x : list Z) : result (list Z) :=
  append_loop (section_population self) t (range 0 (length t)) x.

End Gamma.

(** ** c_gamma_sections_evasion.py *)

Module GammaSections.
Import Py PyM.

(** [lief.PE.Section]: the decoder sets a name and a content. *)
Record pe_section : Type := {
  name : string;
  content : list Z
}.

(** [lief.PE.Binary], as far as the decoder looks into it: the section
    table, in order, and everything else of the parsed file. *)
Record pe_binary : Type := {
  sections : list pe_section;
  headers : list Z
}.

(** The local [lief_adv]: the binary lief has parsed, and the sections
    registered on it since, in the order of the calls. *)
Record pe_edit : Type := {
  parsed : pe_binary;
  added : list pe_section
}.

(** The object [lief.PE.parse] hands back. *)
Definition opened (pe : pe_binary) : pe_edit :=
  {| parsed := pe; added := [] |}.

(** Modelled from the spec: [lief_adv.add_section(s)] belongs to the PE
    builder, which is not under src/; the builder is "given a parsed
    binary representation and a set of new (name, content) pairs", of
    which this call registers one more.  Whether the pairs are taken
    is decided when the binary is built. *)
Definition add_section (b : pe_edit) (s : pe_section) : pe_edit :=
  {| parsed := parsed b; added := added b ++ [s] |}.

(** The state of the module-level generator of [random]: the draws it
    is going to deliver, and how many have been consumed. *)
Record random_state : Type := {
  tape : nat -> nat;
  cursor : nat
}.

(** The attributes read or written by the class, the fitness history
    kept by the base class, and the generator behind [random.choice]. *)
Record problem : Type := {
  section_population : list (list Z);
  latent_space_size : nat;
  random_names : bool;
  names_ : list (list string);
  best_names_ : list string;
  confidences_ : list Q;
  fitness_ : list Q;
  sizes_ : list Z;
  random : random_state
}.

Definition set_random_names (b : bool) (self : problem) : problem :=
  {| section_population := section_population self;
     latent_space_size := latent_space_size self;
     random_names := b;
     names_ := names_ self;
     best_names_ := best_names_ self;
     confidences_ := confidences_ self;
     fitness_ := fitness_ self;
     sizes_ := sizes_ self;
     random := random self |}.

Definition set_names_ (l : list (list string)) (self : problem) : problem :=
  {| section_population := section_population self;
     latent_space_size := latent_space_size self;
     random_names := random_names self;
     names_ := l;
     best_names_ := best_names_ self;
     confidences_ := confidences_ self;
     fitness_ := fitness_ self;
     sizes_ := sizes_ self;
     random := random self |}.

Definition set_best_names_ (l : list string) (self : problem) : problem :=
  {| section_population := section_population self;
     latent_space_size := latent_space_size self;
     random_names := random_names self;
     names_ := names_ self;
     best_names_ := l;
     confidences_ := confidences_ self;
     fitness_ := fitness_ self;
     sizes_ := sizes_ self;
     random := random self |}.

Definition set_random (r : random_state) (self : problem) : problem :=
  {| section_population := section_population self;
     latent_space_size := latent_space_size self;
     random_names := random_names self;
     names_ := names_ self;
     best_names_ := best_names_ self;
     confidences_ := confidences_ self;
     fitness_ := fitness_ self;
     sizes_ := sizes_ self;
     random := r |}.

(** [__init__]: the parent sets the corpus and the latent dimension,
    the class stores the flag and two empty name lists. *)
Definition init (section_population : list (list Z)) (random_names : bool)
    (r : random_state) : problem :=
  {| section_population := section_population;
     latent_space_size := length section_population;
     random_names := random_names;
     names_ := [];
     best_names_ := [];
     confidences_ := [];
     fitness_ := [];
     sizes_ := [];
     random := r |}.

Section Initializer.

(** [super().init_starting_point(x)]: the initializer of the base class
    ([c_blackbox_problem.py], not under src/), whatever it does to the
    object and whichever sample it returns. *)
Variable super_init_starting_point : list Z -> M problem (list Z).

(** [init_starting_point] *)
Definition init_starting_point (x : list Z) : M problem (list Z) :=
  (original <- super_init_starting_point x ;;
   modify (set_best_names_ []) ;;;
   modify (set_names_ []) ;;;
   ret original)%py.

End Initializer.

(** [string.ascii_letters] *)
Definition ascii_letters : list ascii :=
  list_ascii_of_string "abcdefghijklmnopqrstuvwxyzABCDEFGHIJKLMNOPQRSTUVWXYZ".

(** [random.choice(seq)] for a non-empty [seq]. *)
Definition random_choice (seq : list ascii) : M problem ascii :=
  fun self =>
    let r := random self in
    (Ok (nth (tape r (cursor r) mod length seq)%nat seq "a"%char),
     set_random {| tape := tape r; cursor := S (cursor r) |} self).

(** [random.choice(string.ascii_letters) for _ in range(n)] *)
Fixpoint random_letters (n : nat) : M problem (list ascii) :=
  match n with
  | O => ret []
  | S n' => (c <- random_choice ascii_letters ;;
             l <- random_letters n' ;;
             ret (c :: l))%py
  end.

(** ["".join(random.choice(string.ascii_letters) for _ in range(8))] *)
Definition fresh_name : M problem string :=
  (l <- random_letters 8 ;; ret (string_of_list_ascii l))%py.

(** A [for] loop over a list of indices, threading the local variables. *)
Fixpoint for_each {S A B : Type} (l : list A) (body : A -> B -> M S B)
    (acc : B) : M S B :=
  match l with
  | [] => ret acc
  | a :: l' => (acc' <- body a acc ;; for_each l' body acc')%py
  end.

(** One turn of [for i in range(self.latent_space_size)].  The locals
    are [names] and [lief_adv]; the latter is [None] when lief could not
    parse the sample, and the call of its method then raises. *)
Definition inject_section (t : list Q) (i : nat)
    (locals : list string * option pe_edit)
    : M problem (list string * option pe_edit) :=
  (self <- get ;;
   content <- lift (getitem (section_population self) i) ;;
   ti <- lift (getitem t i) ;;
   section_name <-
     (if bool_decide (best_names_ self <> [])
      then lift (getitem (best_names_ self) i)
      else fresh_name) ;;
   match snd locals with
   | Some lief_adv =>
       ret (fst locals ++ [section_name],
            Some (add_section lief_adv
                    {| name := section_name;
                       content := Gamma.content_to_append content ti |}))
   | None => raise AttributeError
   end)%py.

(** [argmin] of numpy: the first position of the least entry; it
    raises on an empty sequence. *)
Fixpoint argmin_from (best_i : nat) (best : Q) (i : nat) (l : list Q) : nat :=
  match l with
  | [] => best_i
  | v :: l' =>
      if Qle_bool best v
      then argmin_from best_i best (S i) l'
      else argmin_from i v (S i) l'
  end.

Definition argmin (l : list Q) : result nat :=
  match l with
  | [] => Raise ValueError
  | v :: l' => Ok (argmin_from 0 v 1 l')
  end.

(** Modelled from the spec: the hook of the base class
    ([CBlackBoxProblem._export_internal_results], not under src/)
    "returns the three parallel arrays" of confidence, fitness and size
    history. *)
Definition super_export_internal_results
    : M problem (list Q * list Q * list Z) :=
  fun self => (Ok (confidences_ self, fitness_ self, sizes_ self), self).

(** [_export_internal_results] *)
Definition export_internal_results : M problem (list Q * list Q * list Z) :=
  (r <- super_export_internal_results ;;
   self <- get ;;
   index <- lift (argmin (drop 1 (fitness_ self))) ;;
   names <- lift (getitem (names_ self) index) ;;
   modify (set_best_names_ names) ;;;
   ret r)%py.

Section Decoder.

(** [lief.PE.parse(raw=...)], which gives [None] on a sample it
    cannot read, and [lief.PE.Builder(...).build()] followed by
    [get_build()], which gives the bytes of the rebuilt binary or
    raises. *)
Variable parse : list Z -> option pe_binary.
Variable build : pe_edit -> result (list Z).

(** [apply_feasible_manipulations] *)
Definition apply_feasible_manipulations (t : list Q) (x : list Z)
    : M problem (list Z) :=
  (self <- get ;;
   locals <- for_each (range 0 (latent_space_size self))
               (inject_section t) ([], opened <$> parse x) ;;
   modify (fun self => set_names_ (names_ self ++ [fst locals]) self) ;;;
   match snd locals with
   | Some lief_adv => lift (build lief_adv)
   | None => raise TypeError
   end)%py.

End Decoder.

End GammaSections.

(** ** Notions in which the properties of the section decoder are stated *)

Module SectionSpec.
Import Py PyM GammaSections.

(** The sections the decoder builds from a list of names, the corpus
    and a latent vector, in the order of the corpus. *)
Definition injected (names : list string) (pop : list (list Z)) (t : list Q)
    : list pe_section :=
  zip_with Build_pe_section names (zip_with Gamma.content_to_append pop t).

(** The number of corpus entries of which a decode takes at least one
    entry. *)
Definition positive_takes (pop : list (list Z)) (t : list Q) : nat :=
  length (filter (fun k => 0 < k) (zip_with Gamma.take_count pop t)).

(** The generator after [n] more draws. *)
Definition advance (n : nat) (r : random_state) : random_state :=
  {| tape := tape r; cursor := n + cursor r |}.

(** The letter [random.choice(string.ascii_letters)] gives at the
    [j]-th draw from now. *)
Definition letter_at (r : random_state) (j : nat) : ascii :=
  nth (tape r (j + cursor r) mod length ascii_letters)%nat ascii_letters "a"%char.

(** The name made of the eight draws that start [j] draws from now. *)
Definition name_at (r : random_state) (j : nat) : string :=
  string_of_list_ascii (map (fun k => letter_at r (k + j)) (seq 0 8)).

(** The fresh names of a decode with latent dimension [d]. *)
Definition fresh_names (r : random_state) (d : nat) : list string :=
  map (fun i => name_at r (8 * i)) (seq 0 d).

(** What the name bookkeeping looks like on a running object: the latent
    dimension is the size of the corpus, every recorded name list has one
    name per corpus entry, and so has the best one once there is one. *)
Record consistent (self : problem) : Prop := {
  dimension_is_corpus :
    latent_space_size self = length (section_population self);
  names_per_entry :
    Forall (fun l => length l = latent_space_size self) (names_ self);
  best_per_entry :
    best_names_ self = [] \/ length (best_names_ self) = latent_space_size self
}.

(** A computation is blind to the [random_names] flag when running it
    on an object with the flag changed gives the same outcome and the
    same final object, up to the flag. *)
Definition flag_blind {A : Type} (m : M problem A) : Prop :=
  forall (b : bool) (self : problem),
    m (set_random_names b self)
    = (fst (m self), set_random_names b (snd (m self))).

(** The names a decode gives to the sections it injects: the best name
    list when one is recorded, fresh names otherwise. *)
Definition names_used (self : problem) : list string :=
  if decide (best_names_ self = [])
  then fresh_names (random self) (latent_space_size self)
  else best_names_ self.

(** The object a decode leaves when it gets as far as the builder: the
    names used are recorded, and the generator has delivered eight
    letters per corpus entry when the names were fresh. *)
Definition decoded (self : problem) : problem :=
  set_names_ (names_ self ++ [names_used self])
    (if decide (best_names_ self = [])
     then set_random
            (advance (8 * latent_space_size self) (random self)) self
     else self).

(** No new pair takes the name of a section of the parsed binary or of
    another new pair. *)
Definition collision_free (b : pe_binary) (new : list pe_section) : Prop :=
  NoDup (name <$> new)
  /\ Forall (fun s => name s ∉ name <$> sections b) new.

(** No new content is longer than the maximum, when one is imposed. *)
Definition within_maximum (maximum : option nat) (new : list pe_section)
    : Prop :=
  forall m : nat, maximum = Some m ->
    Forall (fun s => (length (content s) <= m)%nat) new.

(** The pairs the builder takes. *)
Definition acceptable (maximum : option nat) (e : pe_edit) : Prop :=
  collision_free (parsed e) (added e) /\ within_maximum maximum (added e).

(** Modelled from the spec: the parser and the builder are lief's, not
    under src/.  The builder produces "a byte sequence that (a) contains
    all original sections unmodified, (b) appends one section per pair
    with content set exactly to the given bytes, (c) updates all
    structural bookkeeping ... so the result re-parses cleanly", and it
    "fails with RebuildError if any name collides with an existing
    section or if content length exceeds any operator-imposed
    maximum".  A name registered earlier in the same decode counts as
    existing.  Of what the parser reads back, only the section table is
    prescribed: the bookkeeping fields of the headers change. *)
Record builder_contract (parse : list Z -> option pe_binary)
    (build : pe_edit -> result (list Z)) (maximum : option nat) : Prop := {
  builder_rebuilds :
    forall e : pe_edit,
      acceptable maximum e ->
      exists (image : list Z) (pe' : pe_binary),
        build e = Ok image
        /\ parse image = Some pe'
        /\ sections pe' = sections (parsed e) ++ added e;
  builder_rejects :
    forall e : pe_edit,
      ~ acceptable maximum e -> build e = Raise RebuildError
}.

End SectionSpec.

(** A parser and a builder that meet the contract, over an image that
    holds the code of the binary. *)

Module Codec.
Import GammaSections.

#[local] Instance pe_section_eq_dec : EqDecision pe_section.
Proof. solve_decision. Defined.

#[local] Instance pe_section_countable : Countable pe_section.
Proof.
  apply (inj_countable' (fun s => (name s, content s))
           (fun p => {| name := fst p; content := snd p |})).
  intros []; reflexivity.
Defined.

#[local] Instance pe_binary_eq_dec : EqDecision pe_binary.
Proof. solve_decision. Defined.

#[local] Instance pe_binary_countable : Countable pe_binary.
Proof.
  apply (inj_countable' (fun b => (sections b, headers b))
           (fun p => {| sections := fst p; headers := snd p |})).
  intros []; reflexivity.
Defined.

(** The image of a binary: the bytes of its code, least significant
    first. *)
Definition width (p : positive) : Z := Z.log2 (Z.pos p) / 8 + 1.

Definition image (b : pe_binary) : list Z :=
  Z_to_little_endian (width (encode b)) 8 (Z.pos (encode b)).

Definition parse (x : list Z) : option pe_binary :=
  match little_endian_to_Z 8 x with
  | Z.pos p => decode p
  | _ => None
  end.

(** The test of the builder, pair after pair: the name is not taken
    and the content is not too long. *)
Fixpoint takes (maximum : option nat) (taken : list string)
    (new : list pe_section) : bool :=
  match new with
  | [] => true
  | s :: rest =>
      negb (bool_decide (name s ∈ taken))
      && match maximum with
         | Some m => (length (content s) <=? m)%nat
         | None => true
         end
      && takes maximum (name s :: taken) rest
  end.

Definition build (maximum : option nat) (e : pe_edit) : Py.result (list Z) :=
  if takes maximum (name <$> sections (parsed e)) (added e)
  then Py.Ok (image {| sections := sections (parsed e) ++ added e;
                       headers := headers (parsed e) |})
  else Py.Raise Py.RebuildError.

(** A generator whose every draw is 0, so that every letter is an "a",
    and one whose draws change every eight, so that the names are
    "aaaaaaaa", "bbbbbbbb", and so on. *)
Definition zero_tape : random_state := {| tape := fun _ => 0%nat; cursor := 0 |}.

Definition name_tape : random_state :=
  {| tape := fun i => (i / 8)%nat; cursor := 0 |}.


End Codec.

(** ** c_gamma_evasion.py: harvesting the section population *)

Module Population.
Import GammaSections.

(** What the two class methods see of the machine they run on:
    [os.listdir], [magic.from_file] and [lief.PE.parse] by path, and the
    regular files that hold a pickled list of (section name, file name)
    pairs.  A folder or a file that does not exist is [None]; so is the
    result of lief on a file it cannot parse.  Files that exist without
    holding such a pickle are outside the model. *)
Record world : Type := {
  listdir : string -> option (list string);
  magic_from_file : string -> option string;
  lief_parse : string -> option pe_binary;
  pickles : gmap string (list (string * string))
}.

Definition set_pickles (p : gmap string (list (string * string)))
    (w : world) : world :=
  {| listdir := listdir w;
     magic_from_file := magic_from_file w;
     lief_parse := lief_parse w;
     pickles := p |}.

Inductive exn : Type :=
| FileNotFoundError  (* os.listdir or magic.from_file on a missing path *)
| AttributeError.    (* [.sections] of the None that lief.PE.parse returns *)

Inductive outcome (A : Type) : Type :=
| Return (a : A)
| Throw (e : exn).
Arguments Return {A} a.
Arguments Throw {A} e.

(** [os.path.join(a, b)] of posixpath. *)
Definition path_join (a b : string) : string :=
  if String.prefix "/" b then b
  else if bool_decide (a = ""%string)
          || bool_decide (last (list_ascii_of_string a) = Some "/"%char)
       then a +:+ b
       else a +:+ "/" +:+ b.

(** [needle in hay] for strings. *)
Definition contains (needle hay : string) : bool :=
  match String.index 0 needle hay with
  | Some _ => true
  | None => false
  end.

(** The truth value of an optional string and of an optional integer. *)
Definition truthy_string (s : option string) : option string :=
  match s with
  | Some c => if bool_decide (c = ""%string) then None else Some c
  | None => None
  end.

Definition truthy_int (n : option Z) : option Z :=
  match n with
  | Some b => if b =? 0 then None else Some b
  | None => None
  end.

(** [s.content]: the object lief hands out for the content of a
    section is a view of the buffer of the binary it was parsed into, and
    it is the object that the population keeps, while the loops let go
    of the binary at their next turn.  A view is told by the path its
    binary was parsed from and by what it shows while that binary is
    alive, which is when [len(s.content)] is taken; what can be read
    through it later is not part of the model. *)
Record content_view : Type := {
  owner : string;
  shown : list Z
}.

(** [s.content] for a section [s] of the binary parsed from [path]. *)
Definition view_of (path : string) (s : pe_section) : content_view :=
  {| owner := path; shown := content s |}.

(** [create_section_population_from_list]: the inner loop, [for s in
    lief_pe_file.sections: if s.name == what: ...append(s.content)]. *)
Definition sections_named (what path : string) (pe : pe_binary)
    : list content_view :=
  view_of path <$> filter (fun s => name s = what) (sections pe).

(** [create_section_population_from_list]: the outer loop. *)
Fixpoint collect_from_list (w : world) (folder : string)
    (what_from_who : list (string * string))
    (section_population : list content_view) : outcome (list content_view) :=
  match what_from_who with
  | [] => Return section_population
  | (what, who) :: rest =>
      let path := path_join folder who in
      match lief_parse w path with
      | None => Throw AttributeError
      | Some lief_pe_file =>
          collect_from_list w folder rest
            (section_population ++ sections_named what path lief_pe_file)
      end
  end.

Definition create_section_population_from_list (w : world) (folder : string)
    (what_from_who : list (string * string)) : outcome (list content_view) :=
  collect_from_list w folder what_from_who [].

(** The locals of [create_section_population_from_folder] that its loops
    update. *)
Record harvest : Type := {
  section_population : list content_view;
  what_from_who : list (string * string);
  counter : Z
}.

(** One turn of [for s in lief_pe_file.sections], for the binary parsed
    from [path]. *)
Definition harvest_section (sections_to_extract : list string)
    (size_lower_bound : option Z) (path filename : string)
    (h : harvest) (s : pe_section) : harvest :=
  if bool_decide (name s ∈ sections_to_extract) then
    if match truthy_int size_lower_bound with
       | Some b => Z.of_nat (length (content s)) <? b
       | None => false
       end
    then h
    else if (length (content s) =? 0)%nat then h
    else {| section_population := section_population h ++ [view_of path s];
            what_from_who := what_from_who h ++ [(name s, filename)];
            counter := counter h + 1 |}
  else h.

(** [for filename in file_to_consider], with its [continue] on a file
    that is not a PE and its [break] once enough sections were counted. *)
Fixpoint harvest_files (w : world) (folder : string) (how_many : Z)
    (sections_to_extract : list string) (size_lower_bound : option Z)
    (file_to_consider : list string) (h : harvest) : outcome harvest :=
  match file_to_consider with
  | [] => Return h
  | filename :: rest =>
      let path := path_join folder filename in
      match magic_from_file w path with
      | None => Throw FileNotFoundError
      | Some description =>
          if negb (contains "PE" description)
          then harvest_files w folder how_many sections_to_extract
                 size_lower_bound rest h
          else
            match lief_parse w path with
            | None => Throw AttributeError
            | Some lief_pe_file =>
                let h' :=
                  foldl (harvest_section sections_to_extract
                           size_lower_bound path filename)
                    h (sections lief_pe_file) in
                if how_many <=? counter h' then Return h'
                else harvest_files w folder how_many sections_to_extract
                       size_lower_bound rest h'
            end
      end
  end.

(** [file_to_consider]: the file names of the cache when there is one,
    the listing of the folder otherwise. *)
Definition file_to_consider (w : world) (folder : string)
    (cache_file : option string) : outcome (list string) :=
  match truthy_string cache_file ≫= fun c => pickles w !! c with
  | Some cached => Return (snd <$> cached)
  | None =>
      match listdir w folder with
      | Some names => Return names
      | None => Throw FileNotFoundError
      end
  end.

(** [create_section_population_from_folder]; the world it returns
    differs from the one it is given when the cache was written. *)
Definition create_section_population_from_folder (w : world)
    (folder : string) (how_many : Z)
    (sections_to_extract : option (list string))
    (cache_file : option string) (size_lower_bound : option Z)
    : outcome (list content_view * list (string * string)) * world :=
  let sections_to_extract := default [".data"%string] sections_to_extract in
  match file_to_consider w folder cache_file with
  | Throw e => (Throw e, w)
  | Return files =>
      match harvest_files w folder how_many sections_to_extract
              size_lower_bound files
              {| section_population := []; what_from_who := [];
                 counter := 0 |} with
      | Throw e => (Throw e, w)
      | Return h =>
          let population := Py.slice_to (section_population h) how_many in
          let w' :=
            match truthy_string cache_file with
            | Some c =>
                match pickles w !! c with
                | None => set_pickles (<[c := what_from_who h]> (pickles w)) w
                | Some _ => w
                end
            | None => w
            end in
          (Return (population, what_from_who h), w')
      end
  end.

End Population.

(** Notions in which the properties of the harvest are stated. *)

Module PopulationSpec.
Import GammaSections Population.

(** The test a section has to pass to be harvested. *)
Definition kept (sections_to_extract : list string)
    (size_lower_bound : option Z) (s : pe_section) : bool :=
  bool_decide (name s ∈ sections_to_extract)
  && negb (match truthy_int size_lower_bound with
           | Some b => Z.of_nat (length (content s)) <? b
           | None => false
           end)
  && negb (length (content s) =? 0)%nat.

(** A harvest extended by the sections [l] of the file [filename],
    parsed from [path]. *)
Definition extend (h : harvest) (path filename : string)
    (l : list pe_section) : harvest :=
  {| section_population := section_population h ++ (view_of path <$> l);
     what_from_who :=
       what_from_who h ++ ((fun s => (name s, filename)) <$> l);
     counter := counter h + Z.of_nat (length l) |}.

(** The view [c] recorded with the pair [e] is the view of a section of
    that name, kept by the harvest, in that file of the folder, and the
    file is a PE for libmagic and for lief. *)
Definition harvested_from (w : world) (folder : string)
    (sections_to_extract : list string) (size_lower_bound : option Z)
    (c : content_view) (e : string * string) : Prop :=
  exists (description : string) (pe : pe_binary) (s : pe_section),
    magic_from_file w (path_join folder e.2) = Some description
    /\ contains "PE" description = true
    /\ lief_parse w (path_join folder e.2) = Some pe
    /\ s ∈ sections pe /\ name s = e.1
    /\ kept sections_to_extract size_lower_bound s = true
    /\ c = view_of (path_join folder e.2) s.

(** What can be told of an entry [c] of the population from the pair
    [e] at its position, without looking through the view: the name was
    asked for; the file is in the folder, a PE for libmagic and for lief,
    and the one the view belongs to; it has a section of that name whose
    length is the length of the view, which is not 0 and not below a
    non-zero lower bound. *)
Definition recorded_from (w : world) (folder : string)
    (sections_to_extract : list string) (size_lower_bound : option Z)
    (c : content_view) (e : string * string) : Prop :=
  e.1 ∈ sections_to_extract
  /\ owner c = path_join folder e.2
  /\ (0 < length (shown c))%nat
  /\ (forall b : Z, truthy_int size_lower_bound = Some b ->
                    b <= Z.of_nat (length (shown c)))
  /\ exists (description : string) (pe : pe_binary) (s : pe_section),
       magic_from_file w (path_join folder e.2) = Some description
       /\ contains "PE" description = true
       /\ lief_parse w (path_join folder e.2) = Some pe
       /\ s ∈ sections pe /\ name s = e.1
       /\ length (content s) = length (shown c).

(** No file of the folder has two sections of the same name. *)
Definition distinct_section_names (w : world) (folder : string) : Prop :=
  forall (filename : string) (pe : pe_binary),
    lief_parse w (path_join folder filename) = Some pe ->
    NoDup (name <$> sections pe).

(** No file of the folder has more than one section that is kept. *)
Definition one_section_per_file (w : world) (folder : string)
    (sections_to_extract : list string) (size_lower_bound : option Z) : Prop :=
  forall (filename : string) (pe : pe_binary),
    lief_parse w (path_join folder filename) = Some pe ->
    (length (filter (fun s => kept sections_to_extract size_lower_bound s = true)
               (sections pe)) <= 1)%nat.

(** A small folder to run the harvest on: two PE files and a text
    file, and no cache yet. *)
Definition goodware : world :=
  {| listdir := fun folder =>
       if String.eqb folder "goodware"
       then Some ["a.exe"; "notes.txt"; "b.exe"]%string
       else None;
     magic_from_file := fun path =>
       if String.eqb path "goodware/a.exe"
       then Some "PE32 executable (GUI) Intel 80386"%string
       else if String.eqb path "goodware/b.exe"
       then Some "PE32+ executable (console) x86-64"%string
       else if String.eqb path "goodware/notes.txt"
       then Some "ASCII text"%string
       else None;
     lief_parse := fun path =>
       if String.eqb path "goodware/a.exe"
       then Some {| sections := [{| name := ".text"; content := [1; 2] |};
                                 {| name := ".data"; content := [3; 4; 5] |}];
                    headers := [77; 90] |}
       else if String.eqb path "goodware/b.exe"
       then Some {| sections := [{| name := ".data"; content := [6] |};
                                 {| name := ".rsrc"; content := [] |}];
                    headers := [77; 90] |}
       else None;
     pickles := ∅ |}.

(** The views of the two [.data] sections of that folder. *)
Definition goodware_views : list content_view :=
  [{| owner := "goodware/a.exe"; shown := [3; 4; 5] |};
   {| owner := "goodware/b.exe"; shown := [6] |}]%string.

End PopulationSpec.

(** * Properties *)

(** ** Arithmetic of the conversions *)

Module PyFacts.
Import Py.

(** Closes [Forall unit_interval l] for a list of literals. *)
Ltac unit_interval_literals :=
  repeat constructor; unfold Qle; simpl; lia.

(** The conversions on a few values, as Python and numpy give them:
    [round(2.5) == 2], [round(3.5) == 4], [round(-1.5) == -2],
    [int(-1.5) == -1], [[1, 2, 3][:-1] == [1, 2]]. *)
Example round_ties_to_even :
  round (5 # 2) = 2 /\ round (7 # 2) = 4 /\ round (-3 # 2) = -2
  /\ round (-1 # 2) = 0 /\ round (9 # 4) = 2 /\ round (11 # 4) = 3.
Proof. repeat split. Qed.

Example astype_int_truncates :
  astype_int (-3 # 2) = -1 /\ astype_int (3 # 2) = 1
  /\ astype_int (255 # 1) = 255 /\ astype_int (2 ^ 70 # 1) = int64_min.
Proof. repeat split. Qed.

Example slice_to_bounds :
  slice_to [1; 2; 3] 2 = [1; 2] /\ slice_to [1; 2; 3] 5 = [1; 2; 3]
  /\ slice_to [1; 2; 3] (-1) = [1; 2] /\ slice_to [1; 2; 3] (-7) = [].
Proof. repeat split. Qed.

Example unpack_le_u32_bytes :
  unpack_le_u32 [128; 0; 0; 0] = Ok 128
  /\ unpack_le_u32 [0; 1; 0; 0] = Ok 256
  /\ unpack_le_u32 [1; 2; 3] = Raise StructError.
Proof. repeat split. Qed.

Lemma div_le_cross a1 b1 a2 b2 :
  0 < b1 -> 0 < b2 -> a1 * b2 <= a2 * b1 -> a1 / b1 <= a2 / b2.
Proof.
  intros Hb1 Hb2 Hc.
  apply Z.div_le_lower_bound; [exact Hb2|].
  pose proof (Z.mul_div_le a1 b1 Hb1) as Hf.
  nia.
Qed.

Lemma round_mono (p q : Q) : (p <= q)%Q -> round p <= round q.
Proof.
  destruct p as [n1 d1], q as [n2 d2]. unfold Qle, round; simpl.
  intros Hle.
  set (b1 := 2 * Z.pos d1). set (b2 := 2 * Z.pos d2).
  set (a1 := 2 * n1 + Z.pos d1). set (a2 := 2 * n2 + Z.pos d2).
  assert (Hb1 : 0 < b1) by (unfold b1; lia).
  assert (Hb2 : 0 < b2) by (unfold b2; lia).
  assert (Hc : a1 * b2 <= a2 * b1) by (unfold a1, a2, b1, b2; nia).
  pose proof (div_le_cross a1 b1 a2 b2 Hb1 Hb2 Hc) as Hf.
  destruct ((a2 mod b2 =? 0) && Z.odd (a2 / b2)) eqn:E2;
    destruct ((a1 mod b1 =? 0) && Z.odd (a1 / b1)) eqn:E1; try lia.
  apply andb_true_iff in E2 as [Hm2 Ho2]. apply Z.eqb_eq in Hm2.
  destruct (Z.eq_dec (a1 / b1) (a2 / b2)) as [Heq|Hne]; [|lia].
  exfalso.
  pose proof (Z.div_mod a2 b2 ltac:(lia)) as D2.
  pose proof (Z.div_mod a1 b1 ltac:(lia)) as D1.
  pose proof (Z.mod_pos_bound a1 b1 Hb1) as B1.
  assert (a1 mod b1 = 0) as Hm1 by nia.
  rewrite Hm1, Heq, Ho2 in E1. simpl in E1. discriminate.
Qed.

Lemma round_inject_Z (n : Z) : round (inject_Z n) = n.
Proof.
  unfold round; simpl Qnum; simpl Qden.
  replace (2 * n + Z.pos 1) with (1 + n * 2) by lia.
  replace (2 * Z.pos 1) with 2 by lia.
  rewrite Z.div_add by lia. rewrite Z.mod_add by lia.
  change (1 mod 2) with 1. change (1 / 2) with 0. simpl. reflexivity.
Qed.

Lemma round_opp (n : Z) (d : positive) : round (- n # d) = - round (n # d).
Proof.
  unfold round; simpl.
  set (b := 2 * Z.pos d). set (a := 2 * n + Z.pos d).
  assert (Hb : 0 < b) by (unfold b; lia).
  replace (2 * - n + Z.pos d) with (b - a) by (unfold a, b; lia).
  pose proof (Z.div_mod a b ltac:(lia)) as Hdm.
  pose proof (Z.mod_pos_bound a b Hb) as Hr.
  destruct (Z.eq_dec (a mod b) 0) as [Hz|Hnz].
  - assert (Hq : (b - a) / b = 1 - a / b).
    { symmetry. apply (Z.div_unique (b - a) b (1 - a / b) 0); lia. }
    assert (Hm : (b - a) mod b = 0).
    { symmetry. apply (Z.mod_unique (b - a) b (1 - a / b) 0); lia. }
    rewrite Hq, Hm, Hz. simpl.
    replace (1 - a / b) with (Z.succ (- (a / b))) by lia.
    rewrite Z.odd_succ, Z.even_opp, <- Z.negb_odd.
    destruct (Z.odd (a / b)); simpl; lia.
  - assert (Hq : (b - a) / b = - (a / b)).
    { symmetry. apply (Z.div_unique (b - a) b (- (a / b)) (b - a mod b)); lia. }
    assert (Hm : (b - a) mod b = b - a mod b).
    { symmetry. apply (Z.mod_unique (b - a) b (- (a / b)) (b - a mod b)); lia. }
    rewrite Hq, Hm.
    destruct (Z.eqb_spec (b - a mod b) 0); [lia|].
    destruct (Z.eqb_spec (a mod b) 0); [lia|]. reflexivity.
Qed.

Lemma round_Qopp (q : Q) : round (- q) = - round q.
Proof. destruct q as [n d]. apply round_opp. Qed.

Lemma round_Qeq (p q : Q) : (p == q)%Q -> round p = round q.
Proof.
  intros H. apply Z.le_antisymm; apply round_mono; rewrite H; apply Qle_refl.
Qed.

Lemma round_nonneg (q : Q) : (0 <= q)%Q -> 0 <= round q.
Proof. intros H. rewrite <- (round_inject_Z 0). apply round_mono. exact H. Qed.

(** [round q] is the integer nearest to [q], the even one on a tie. *)
Lemma round_nearest (q : Q) : nearest_even q (round q).
Proof.
  unfold nearest_even.
  destruct q as [n d]. unfold round; simpl.
  set (b := 2 * Z.pos d). set (a := 2 * n + Z.pos d).
  assert (Hb : 0 < b) by (unfold b; lia).
  pose proof (Z.div_mod a b ltac:(lia)) as Hdm.
  pose proof (Z.mod_pos_bound a b Hb) as Hr.
  set (f := a / b) in *. set (r := a mod b) in *.
  assert (Hdiff : forall k : Z,
             (inject_Z k - (n # d) == (2 * (k * Z.pos d - n)) # (2 * d))%Q).
  { intros k. unfold Qeq, Qminus, Qplus, Qopp, inject_Z; simpl. lia. }
  assert (Habs : forall k : Z,
             (Qabs (inject_Z k - (n # d))
              == (Z.abs (2 * (k * Z.pos d - n))) # (2 * d))%Q).
  { intros k. rewrite (Hdiff k). reflexivity. }
  destruct ((r =? 0) && Z.odd f) eqn:E.
  - apply andb_true_iff in E as [Hr0 Hodd]. apply Z.eqb_eq in Hr0.
    rewrite (Habs (f - 1)). unfold Qle, Qeq; simpl. split.
    + unfold a, b in *. nia.
    + intros _. rewrite Z.even_sub, <- Z.negb_odd, Hodd. reflexivity.
  - rewrite (Habs f). unfold Qle, Qeq; simpl. split.
    + unfold a, b in *. nia.
    + intros Htie. apply andb_false_iff in E as [Hr0|Hodd].
      * apply Z.eqb_neq in Hr0. exfalso. unfold a, b in *. nia.
      * rewrite <- Z.negb_odd, Hodd. reflexivity.
Qed.

(** There is one such integer: truncating, or rounding a tie upwards,
    gives another one as soon as the two differ. *)
Lemma nearest_even_unique (q : Q) (z1 z2 : Z) :
  nearest_even q z1 -> nearest_even q z2 -> z1 = z2.
Proof.
  assert (H : forall a b : Z,
             nearest_even q a -> nearest_even q b -> a < b -> False).
  { intros a b [Ha Ta] [Hb Tb] Hlt.
    apply Qabs_Qle_condition in Ha as [Ha1 Ha2].
    apply Qabs_Qle_condition in Hb as [Hb1 Hb2].
    assert (Hab : (inject_Z a + 1 <= inject_Z b)%Q).
    { change 1%Q with (inject_Z 1). rewrite <- inject_Z_plus, <- Zle_Qle. lia. }
    assert (Ea : (inject_Z a - q == - (1 # 2))%Q) by lra.
    assert (Eb : (inject_Z b - q == 1 # 2)%Q) by lra.
    assert (Hb' : b = a + 1).
    { assert (Hle : (inject_Z b <= inject_Z (a + 1))%Q)
        by (rewrite inject_Z_plus; change (inject_Z 1) with 1%Q; lra).
      rewrite <- Zle_Qle in Hle. lia. }
    assert (Ha_even : Z.even a = true).
    { apply Ta. rewrite Ea. reflexivity. }
    assert (Hb_even : Z.even b = true).
    { apply Tb. rewrite Eb. reflexivity. }
    rewrite Hb', Z.even_add, Ha_even in Hb_even. discriminate. }
  intros H1 H2. destruct (Z.lt_trichotomy z1 z2) as [Hlt|[Heq|Hgt]].
  - exfalso. exact (H z1 z2 H1 H2 Hlt).
  - exact Heq.
  - exfalso. exact (H z2 z1 H2 H1 Hgt).
Qed.

Lemma astype_int_floor (q : Q) :
  (0 <= q)%Q -> (q <= 255)%Q ->
  astype_int q = Qfloor q /\ is_byte (astype_int q).
Proof.
  intros H0 H1. destruct q as [n d]. unfold Qle in *; simpl in *.
  unfold astype_int, trunc, Qfloor, is_byte; simpl.
  assert (Hn : 0 <= n) by lia.
  rewrite Z.quot_div_nonneg by lia.
  assert (Hlo : 0 <= n / Z.pos d) by (apply Z.div_pos; lia).
  assert (Hhi : n / Z.pos d <= 255).
  { apply Z.div_le_upper_bound; lia. }
  unfold int64_min, int64_max.
  destruct (Z.leb_spec (- 2 ^ 63) (n / Z.pos d));
    destruct (Z.leb_spec (n / Z.pos d) (2 ^ 63 - 1)); simpl; lia.
Qed.

(** Storing a byte into an array that has room for bytes keeps it. *)
Lemma cast_byte (dt : dtype) (v : Z) :
  holds_bytes dt = true -> is_byte v -> cast dt v = v.
Proof.
  unfold is_byte. intros Hdt Hv.
  destruct dt; try discriminate; unfold cast; cbn [signed bits];
    [rewrite Z.mod_small..|]; try lia.
  all: try (change (2 ^ 16 / 2) with 32768; change (2 ^ 16) with 65536; lia).
  all: try (change (2 ^ 32 / 2) with 2147483648;
            change (2 ^ 32) with 4294967296; lia).
  all: try (change (2 ^ 64 / 2) with 9223372036854775808;
            change (2 ^ 64) with 18446744073709551616; lia).
  all: try (rewrite Z.mod_small; lia).
Qed.

Example cast_wraps :
  cast uint8 510 = 254 /\ cast uint8 (-255) = 1 /\ cast int8 200 = -56
  /\ cast int64 510 = 510 /\ cast int64 (-255) = -255
  /\ cast uint16 510 = 510.
Proof. repeat split. Qed.

End PyFacts.

(** ** Arithmetic of binary64 *)

Module FloatFacts.
Import Py PyFacts.

Local Open Scope Q_scope.

Lemma pow2_pos (e : Z) : 0 < 2 ^ e.
Proof. apply Qpower_0_lt. reflexivity. Qed.

Lemma pow2_add (a b : Z) : 2 ^ (a + b) == 2 ^ a * 2 ^ b.
Proof. apply Qpower_plus. discriminate. Qed.

Lemma pow2_le (a b : Z) : (a <= b)%Z -> 2 ^ a <= 2 ^ b.
Proof. intros H. apply Qpower_le_compat_l; [exact H|]. discriminate. Qed.

Lemma pow2_lt_inv (a b : Z) : 2 ^ a < 2 ^ b -> (a < b)%Z.
Proof. intros H. eapply Qpower_lt_compat_l_inv; [exact H|reflexivity]. Qed.

Lemma pow2_inject (e : Z) : (0 <= e)%Z -> 2 ^ e == inject_Z (2 ^ e).
Proof. intros H. rewrite (Zpower_Qpower 2 e H). reflexivity. Qed.

Lemma pow2_cancel (e : Z) : 2 ^ e * 2 ^ (- e) == 1.
Proof. rewrite <- pow2_add, Z.add_opp_diag_r. reflexivity. Qed.

Lemma pow2_succ (e : Z) : 2 ^ (e + 1) == 2 * 2 ^ e.
Proof. rewrite pow2_add. change (2 ^ 1) with 2. ring. Qed.

(** [ilog2 q] is the binary exponent of a non-zero [q]. *)
Lemma ilog2_spec (q : Q) :
  ~ q == 0 -> 2 ^ ilog2 q <= Qabs q /\ Qabs q < 2 ^ (ilog2 q + 1).
Proof.
  intros Hq. unfold ilog2.
  set (n := Z.abs (Qnum q)). set (d := Z.pos (Qden q)).
  set (k := (Z.log2 n - Z.log2 d)%Z).
  assert (Hn : (0 < n)%Z).
  { unfold n. destruct q as [[|p|p] dd]; simpl; try lia.
    exfalso. apply Hq. reflexivity. }
  assert (Hd : (0 < d)%Z) by (unfold d; lia).
  destruct (Z.log2_spec n Hn) as [Hn1 Hn2].
  destruct (Z.log2_spec d Hd) as [Hd1 Hd2].
  pose proof (Z.log2_nonneg n) as Ha. pose proof (Z.log2_nonneg d) as Hb.
  assert (Habs : Qabs q == inject_Z n / inject_Z d).
  { destruct q as [qn qd]. unfold n, d; simpl. unfold Qabs.
    rewrite (Qmake_Qdiv (Z.abs qn) qd). reflexivity. }
  set (A := 2 ^ Z.log2 n). set (B := 2 ^ Z.log2 d).
  assert (HA : 0 < A) by apply pow2_pos.
  assert (HB : 0 < B) by apply pow2_pos.
  assert (HAn : A <= inject_Z n /\ inject_Z n < 2 * A).
  { unfold A. rewrite <- pow2_succ, !pow2_inject by lia.
    rewrite <- Zle_Qle, <- Zlt_Qlt. replace (Z.log2 n + 1)%Z with (Z.succ (Z.log2 n)) by lia. lia. }
  assert (HBd : B <= inject_Z d /\ inject_Z d < 2 * B).
  { unfold B. rewrite <- pow2_succ, !pow2_inject by lia.
    rewrite <- Zle_Qle, <- Zlt_Qlt. replace (Z.log2 d + 1)%Z with (Z.succ (Z.log2 d)) by lia. lia. }
  assert (Hk : 2 ^ k == A / B).
  { unfold k, A, B. apply Qpower_minus. discriminate. }
  assert (HD : 0 < inject_Z d) by (rewrite <- (Zlt_Qlt 0); exact Hd).
  assert (Hlo : 2 ^ (k - 1) <= Qabs q).
  { unfold Z.sub. rewrite pow2_add, Hk, Habs. change (2 ^ (-1)) with (1 # 2).
    apply Qle_shift_div_l; [exact HD|].
    assert (A / B * (1 # 2) * inject_Z d == (A * inject_Z d) / (2 * B)) as ->
      by (field; lra).
    apply Qle_shift_div_r; [lra|]. nra. }
  assert (Hhi : Qabs q < 2 ^ (k + 1)).
  { rewrite pow2_succ, Hk, Habs.
    apply Qlt_shift_div_r; [exact HD|].
    assert (2 * (A / B) * inject_Z d == (2 * A * inject_Z d) / B) as ->
      by (field; lra).
    apply Qlt_shift_div_l; [lra|]. nra. }
  destruct (Qle_bool (2 ^ k) (Qabs q)) eqn:Ht.
  - apply Qle_bool_iff in Ht. split; [exact Ht|exact Hhi].
  - assert (Hlt : Qabs q < 2 ^ k).
    { apply Qnot_le_lt. intros Hle. apply Qle_bool_iff in Hle. congruence. }
    split; [exact Hlo|]. replace (k - 1 + 1)%Z with k by lia. exact Hlt.
Qed.

Lemma ilog2_unique (q : Q) (k : Z) :
  2 ^ k <= Qabs q -> Qabs q < 2 ^ (k + 1) -> ilog2 q = k.
Proof.
  intros H1 H2.
  assert (Hq : ~ q == 0).
  { intros H0. rewrite H0 in H1. change (Qabs 0) with 0 in H1.
    pose proof (pow2_pos k). lra. }
  destruct (ilog2_spec q Hq) as [H3 H4].
  assert ((k < ilog2 q + 1)%Z) by (apply pow2_lt_inv; lra).
  assert ((ilog2 q < k + 1)%Z) by (apply pow2_lt_inv; lra).
  lia.
Qed.

Lemma ilog2_Qeq (p q : Q) : ~ q == 0 -> p == q -> ilog2 p = ilog2 q.
Proof.
  intros Hq H. destruct (ilog2_spec q Hq) as [H1 H2].
  apply ilog2_unique; rewrite H; assumption.
Qed.

Lemma ilog2_opp (q : Q) : ~ q == 0 -> ilog2 (- q) = ilog2 q.
Proof.
  intros Hq. destruct (ilog2_spec q Hq) as [H1 H2].
  apply ilog2_unique; rewrite Qabs_opp; assumption.
Qed.

Lemma ilog2_mono (p q : Q) : 0 < p -> p <= q -> (ilog2 p <= ilog2 q)%Z.
Proof.
  intros Hp Hpq.
  assert (Hp0 : ~ p == 0) by (intros H; rewrite H in Hp; lra).
  assert (Hq0 : ~ q == 0) by (intros H; rewrite H in Hpq; lra).
  destruct (ilog2_spec p Hp0) as [H1 _]. destruct (ilog2_spec q Hq0) as [_ H2].
  rewrite Qabs_pos in H1 by lra. rewrite Qabs_pos in H2 by lra.
  assert ((ilog2 p < ilog2 q + 1)%Z) by (apply pow2_lt_inv; lra).
  lia.
Qed.

Lemma round64_zero (q : Q) : q == 0 -> round64 q = 0.
Proof.
  intros H. unfold round64. apply Qeq_bool_iff in H. rewrite H. reflexivity.
Qed.

Lemma round64_nonzero (q : Q) :
  ~ q == 0 ->
  round64 q
  = inject_Z (round (q * 2 ^ (- ulp_exponent q))) * 2 ^ ulp_exponent q.
Proof.
  intros H. unfold round64.
  destruct (Qeq_bool q 0) eqn:E; [|reflexivity].
  apply Qeq_bool_iff in E. contradiction.
Qed.

Lemma round64_nonneg (q : Q) : 0 <= q -> 0 <= round64 q.
Proof.
  intros H. destruct (Qeq_dec q 0) as [Hz|Hnz].
  - rewrite (round64_zero q Hz). apply Qle_refl.
  - rewrite (round64_nonzero q Hnz).
    apply Qmult_le_0_compat; [|apply Qlt_le_weak, pow2_pos].
    change 0 with (inject_Z 0). rewrite <- Zle_Qle. apply round_nonneg.
    apply Qmult_le_0_compat; [exact H|apply Qlt_le_weak, pow2_pos].
Qed.

Lemma round64_opp (q : Q) : round64 (- q) == - round64 q.
Proof.
  destruct (Qeq_dec q 0) as [Hz|Hnz].
  - rewrite (round64_zero q Hz), (round64_zero (- q)); [reflexivity|].
    rewrite Hz. reflexivity.
  - assert (Hn : ~ - q == 0) by (intros H; apply Hnz; lra).
    rewrite (round64_nonzero _ Hn), (round64_nonzero _ Hnz).
    unfold ulp_exponent. rewrite (ilog2_opp q Hnz).
    set (e := Z.max (ilog2 q - 52) (-1074)).
    rewrite (round_Qeq (- q * 2 ^ (- e)) (- (q * 2 ^ (- e)))) by ring.
    rewrite round_Qopp, inject_Z_opp. ring.
Qed.

Lemma round64_Qeq (p q : Q) : p == q -> round64 p == round64 q.
Proof.
  intros H. destruct (Qeq_dec q 0) as [Hz|Hnz].
  - rewrite (round64_zero q Hz), (round64_zero p); [reflexivity|].
    rewrite H. exact Hz.
  - assert (Hp : ~ p == 0) by (rewrite H; exact Hnz).
    rewrite (round64_nonzero _ Hp), (round64_nonzero _ Hnz).
    unfold ulp_exponent. rewrite (ilog2_Qeq p q Hnz H).
    set (e := Z.max (ilog2 q - 52) (-1074)).
    rewrite (round_Qeq (p * 2 ^ (- e)) (q * 2 ^ (- e))); [reflexivity|].
    rewrite H. reflexivity.
Qed.

#[global] Instance round64_wd : Proper (Qeq ==> Qeq) round64.
Proof. intros p q H. apply round64_Qeq. exact H. Qed.

(** A value on the grid of its own binade is not changed. *)
Lemma round64_exact (q : Q) (m e' : Z) :
  q == inject_Z m * 2 ^ e' -> (ulp_exponent q <= e')%Z -> round64 q == q.
Proof.
  intros Hq He. destruct (Qeq_dec q 0) as [Hz|Hnz].
  - rewrite (round64_zero q Hz), Hz. reflexivity.
  - rewrite (round64_nonzero q Hnz). set (e := ulp_exponent q) in *.
    assert (Hs : q * 2 ^ (- e) == inject_Z (m * 2 ^ (e' - e))).
    { rewrite Hq, inject_Z_mult, <- pow2_inject by lia.
      unfold Z.sub. rewrite pow2_add. ring. }
    rewrite (round_Qeq _ _ Hs), round_inject_Z, <- Hs.
    rewrite <- Qmult_assoc, (Qmult_comm (2 ^ (- e))), pow2_cancel. ring.
Qed.

Lemma ilog2_inject_Z_lt (n k : Z) :
  (0 <= k)%Z -> (Z.abs n < 2 ^ k)%Z -> ~ inject_Z n == 0 ->
  (ilog2 (inject_Z n) < k)%Z.
Proof.
  intros Hk Hn Hnz. destruct (ilog2_spec _ Hnz) as [H1 _].
  apply pow2_lt_inv. eapply Qle_lt_trans; [exact H1|].
  rewrite (pow2_inject k Hk).
  assert (Ha : Qabs (inject_Z n) == inject_Z (Z.abs n)) by reflexivity.
  rewrite Ha, <- Zlt_Qlt. exact Hn.
Qed.

(** Integers up to 2^53 in absolute value are binary64 values. *)
Lemma round64_inject_Z (n : Z) :
  (Z.abs n <= 2 ^ 53)%Z -> round64 (inject_Z n) == inject_Z n.
Proof.
  intros Hn. destruct (Qeq_dec (inject_Z n) 0) as [Hz|Hnz].
  - rewrite (round64_zero _ Hz), Hz. reflexivity.
  - destruct (Z.eq_dec (Z.abs n) (2 ^ 53)%Z) as [He|Hne].
    + assert (Ha : Qabs (inject_Z n) == inject_Z (Z.abs n)) by reflexivity.
      assert (Hk : ilog2 (inject_Z n) = 53%Z).
      { apply ilog2_unique; rewrite Ha, He.
        - vm_compute. discriminate.
        - vm_compute. reflexivity. }
      apply (round64_exact _ (n / 2 ^ 53)%Z 53).
      * assert (Hdiv : n = (n / 2 ^ 53 * 2 ^ 53)%Z).
        { destruct (Z.abs_spec n) as [[_ Hb]|[_ Hb]]; rewrite Hb in He.
          - rewrite He. rewrite Z.div_same by lia. lia.
          - assert (n = (- 2 ^ 53)%Z) as -> by lia. vm_compute. reflexivity. }
        rewrite Hdiv at 1. rewrite inject_Z_mult.
        rewrite (pow2_inject 53) by lia. reflexivity.
      * unfold ulp_exponent. rewrite Hk. lia.
    + apply (round64_exact _ n 0).
      * change (2 ^ 0) with 1. ring.
      * unfold ulp_exponent.
        pose proof (ilog2_inject_Z_lt n 53 ltac:(lia) ltac:(lia) Hnz). lia.
Qed.

(** A positive value in a normal binade is rounded within the binade. *)
Lemma round64_ge_pow2 (q : Q) :
  0 < q -> (-1074 <= ilog2 q - 52)%Z -> 2 ^ ilog2 q <= round64 q.
Proof.
  intros Hq Hn.
  assert (Hnz : ~ q == 0) by (intros H; rewrite H in Hq; lra).
  destruct (ilog2_spec q Hnz) as [H1 _]. rewrite Qabs_pos in H1 by lra.
  rewrite (round64_nonzero q Hnz). unfold ulp_exponent.
  rewrite Z.max_l by lia. set (k := ilog2 q) in *.
  assert (Hs : inject_Z (2 ^ 52) <= q * 2 ^ (- (k - 52))).
  { rewrite <- (pow2_inject 52) by lia.
    replace 52%Z with (k + - (k - 52))%Z at 1 by lia.
    rewrite pow2_add. apply Qmult_le_compat_r; [exact H1|].
    apply Qlt_le_weak, pow2_pos. }
  apply round_mono in Hs. rewrite round_inject_Z in Hs.
  replace k with (52 + (k - 52))%Z at 1 by lia. rewrite pow2_add.
  apply Qmult_le_compat_r; [|apply Qlt_le_weak, pow2_pos].
  rewrite (pow2_inject 52) by lia. rewrite <- Zle_Qle. exact Hs.
Qed.

Lemma round64_le_pow2 (q : Q) : 0 < q -> round64 q <= 2 ^ (ilog2 q + 1).
Proof.
  intros Hq.
  assert (Hnz : ~ q == 0) by (intros H; rewrite H in Hq; lra).
  destruct (ilog2_spec q Hnz) as [_ H2]. rewrite Qabs_pos in H2 by lra.
  rewrite (round64_nonzero q Hnz).
  set (e := ulp_exponent q). set (k := ilog2 q) in *.
  assert (Hs : q * 2 ^ (- e) <= 2 ^ (k + 1 - e)).
  { unfold Z.sub at 1. rewrite (pow2_add (k + 1)).
    apply Qmult_le_compat_r; [lra|apply Qlt_le_weak, pow2_pos]. }
  destruct (Z_le_gt_dec 0 (k + 1 - e)) as [Hge|Hlt].
  - rewrite (pow2_inject _ Hge) in Hs.
    apply round_mono in Hs. rewrite round_inject_Z in Hs.
    replace (k + 1)%Z with ((k + 1 - e) + e)%Z by lia. rewrite pow2_add.
    apply Qmult_le_compat_r; [|apply Qlt_le_weak, pow2_pos].
    rewrite (pow2_inject _ Hge), <- Zle_Qle. exact Hs.
  - assert (Hhalf : q * 2 ^ (- e) <= 1 # 2).
    { eapply Qle_trans; [exact Hs|].
      change (1 # 2) with (2 ^ (-1)). apply pow2_le. lia. }
    apply round_mono in Hhalf. change (round (1 # 2)) with 0%Z in Hhalf.
    pose proof (pow2_pos e). pose proof (pow2_pos (k + 1)).
    assert (inject_Z (round (q * 2 ^ (- e))) <= 0)
      by (change 0 with (inject_Z 0); rewrite <- Zle_Qle; exact Hhalf).
    nra.
Qed.

Lemma round64_mono_pos (p q : Q) : 0 < p -> p <= q -> round64 p <= round64 q.
Proof.
  intros Hp Hpq.
  assert (Hq : 0 < q) by lra.
  pose proof (ilog2_mono p q Hp Hpq) as Hk.
  destruct (Z.eq_dec (ulp_exponent p) (ulp_exponent q)) as [He|Hne].
  - assert (Hp0 : ~ p == 0) by (intros H; rewrite H in Hp; lra).
    assert (Hq0 : ~ q == 0) by (intros H; rewrite H in Hq; lra).
    rewrite (round64_nonzero p Hp0), (round64_nonzero q Hq0), He.
    apply Qmult_le_compat_r; [|apply Qlt_le_weak, pow2_pos].
    rewrite <- Zle_Qle. apply round_mono.
    apply Qmult_le_compat_r; [exact Hpq|apply Qlt_le_weak, pow2_pos].
  - unfold ulp_exponent in Hne.
    eapply Qle_trans; [apply (round64_le_pow2 p Hp)|].
    eapply Qle_trans; [|apply (round64_ge_pow2 q Hq); lia].
    apply pow2_le. lia.
Qed.

(** Rounding to binary64 is monotone. *)
Lemma round64_mono (p q : Q) : p <= q -> round64 p <= round64 q.
Proof.
  intros Hpq.
  destruct (Qlt_le_dec 0 p) as [Hp|Hp]; [apply round64_mono_pos; assumption|].
  destruct (Qlt_le_dec q 0) as [Hq|Hq].
  - assert (H : round64 (- q) <= round64 (- p))
      by (apply round64_mono_pos; lra).
    rewrite !round64_opp in H. lra.
  - assert (H1 : 0 <= round64 q) by (apply round64_nonneg; exact Hq).
    assert (H2 : 0 <= round64 (- p)) by (apply round64_nonneg; lra).
    rewrite round64_opp in H2. lra.
Qed.

(** The result is the multiple of the unit in the last place that is
    nearest to the value, the even multiple when two are as near. *)
Lemma round64_nearest (q : Q) :
  ~ q == 0 ->
  exists m : Z,
    round64 q = inject_Z m * 2 ^ ulp_exponent q
    /\ Qabs (round64 q - q) <= (1 # 2) * 2 ^ ulp_exponent q
    /\ (Qabs (round64 q - q) == (1 # 2) * 2 ^ ulp_exponent q ->
        Z.even m = true).
Proof.
  intros Hnz. set (e := ulp_exponent q).
  exists (round (q * 2 ^ (- e))).
  rewrite (round64_nonzero q Hnz). fold e.
  set (s := q * 2 ^ (- e)). set (m := round s).
  destruct (round_nearest s) as [Hn Ht]. fold m in Hn, Ht.
  pose proof (pow2_pos e) as He.
  assert (Hq : q == s * 2 ^ e).
  { unfold s. rewrite <- Qmult_assoc, (Qmult_comm (2 ^ (- e))), pow2_cancel.
    ring. }
  assert (Hd : Qabs (inject_Z m * 2 ^ e - q)
               == Qabs (inject_Z m - s) * 2 ^ e).
  { rewrite Hq at 1.
    assert (inject_Z m * 2 ^ e - s * 2 ^ e == (inject_Z m - s) * 2 ^ e) as ->
      by ring.
    rewrite Qabs_Qmult, (Qabs_pos (2 ^ e)) by lra. reflexivity. }
  split; [reflexivity|]. rewrite Hd. split.
  - apply Qmult_le_compat_r; [exact Hn|lra].
  - intros Htie. apply Ht.
    apply (Qmult_inj_r _ _ (2 ^ e)); [lra|exact Htie].
Qed.

Lemma fmul_mono_r (a b c : Q) : 0 <= a -> b <= c -> fmul a b <= fmul a c.
Proof.
  intros Ha Hbc. unfold fmul. apply round64_mono.
  nra.
Qed.

Lemma round64_binary64 (q : Q) : binary64_nearest q (round64 q).
Proof.
  split.
  - intros Hz. rewrite (round64_zero q Hz). reflexivity.
  - intros Hnz. destruct (round64_nearest q Hnz) as (m & Hm & Hn & Ht).
    exists m. split; [rewrite Hm; reflexivity|]. split; assumption.
Qed.

Lemma fmul_binary64 (a b : Q) : binary64_nearest (a * b) (fmul a b).
Proof. apply round64_binary64. Qed.

Lemma of_int_exact (n : Z) : (Z.abs n <= 2 ^ 53)%Z -> of_int n == inject_Z n.
Proof. apply round64_inject_Z. Qed.

Lemma of_int_nonneg (n : Z) : (0 <= n)%Z -> 0 <= of_int n.
Proof.
  intros H. unfold of_int. apply round64_nonneg.
  change 0 with (inject_Z 0). rewrite <- Zle_Qle. exact H.
Qed.

Lemma fmul_zero_r (a b : Q) : b == 0 -> fmul a b = 0.
Proof. intros H. unfold fmul. apply round64_zero. rewrite H. ring. Qed.

Lemma fmul_opp_r (a b : Q) : fmul a (- b) == - fmul a b.
Proof.
  unfold fmul. rewrite <- round64_opp. apply round64_Qeq. ring.
Qed.

(** A component of the unit interval scaled by 255 stays in [0, 255]. *)
Lemma fmul_255_unit (ti : Q) :
  unit_interval ti -> 0 <= fmul ti 255 /\ fmul ti 255 <= 255.
Proof.
  intros [H0 H1]. unfold fmul. split.
  - apply round64_nonneg. nra.
  - apply Qle_trans with (round64 (inject_Z 255)).
    + apply round64_mono. change (inject_Z 255) with 255. lra.
    + rewrite round64_inject_Z by (vm_compute; discriminate). apply Qle_refl.
Qed.

Lemma byte_value_unit (ti : Q) :
  unit_interval ti ->
  astype_int (fmul ti 255) = Qfloor (fmul ti 255)
  /\ is_byte (astype_int (fmul ti 255)).
Proof.
  intros Hu. destruct (fmul_255_unit ti Hu) as [H0 H1].
  apply astype_int_floor; assumption.
Qed.

(** A take is monotone in the component, whatever the length. *)
Lemma take_mono (n : Z) (t1 t2 : Q) :
  (0 <= n)%Z -> t1 <= t2 ->
  (round (fmul (of_int n) t1) <= round (fmul (of_int n) t2))%Z.
Proof.
  intros Hn Ht. apply round_mono. apply fmul_mono_r; [|exact Ht].
  apply of_int_nonneg. exact Hn.
Qed.

Lemma take_bounds (n : Z) (q : Q) :
  (0 <= n <= 2 ^ 53)%Z -> unit_interval q ->
  (0 <= round (fmul (of_int n) q) <= n)%Z.
Proof.
  intros Hn [H0 H1].
  assert (He : of_int n == inject_Z n) by (apply of_int_exact; lia).
  assert (Hn0 : 0 <= inject_Z n)
    by (change 0 with (inject_Z 0); rewrite <- Zle_Qle; lia).
  split.
  - apply round_nonneg. unfold fmul. apply round64_nonneg. rewrite He. nra.
  - rewrite <- (round_inject_Z n) at 2. apply round_mono.
    unfold fmul. apply Qle_trans with (round64 (inject_Z n)).
    + apply round64_mono. rewrite He. nra.
    + rewrite round64_inject_Z by lia. apply Qle_refl.
Qed.

Lemma take_ge_one (n : Z) (q : Q) :
  (0 <= n <= 2 ^ 53)%Z -> 1 <= q -> (n <= round (fmul (of_int n) q))%Z.
Proof.
  intros Hn H1.
  assert (He : of_int n == inject_Z n) by (apply of_int_exact; lia).
  assert (Hn0 : 0 <= inject_Z n)
    by (change 0 with (inject_Z 0); rewrite <- Zle_Qle; lia).
  rewrite <- (round_inject_Z n) at 1. apply round_mono.
  unfold fmul. apply Qle_trans with (round64 (inject_Z n)).
  - rewrite round64_inject_Z by lia. apply Qle_refl.
  - apply round64_mono. rewrite He. nra.
Qed.





(** [Py.fmul] on the products listed in [Hardware] is the product of
    the machine. *)
Example fmul_agrees_with_hardware :
  forallb (fun ab => Hardware.agree (fst ab) (snd ab)) Hardware.products = true.
Proof. vm_compute. reflexivity. Qed.

(** [0.1 * 5] is the float 0.5, and [round(0.5) == 0]; 255 times the
    float nearest to 1/255 is the float 1.0, though the exact product is
    below 1; [3.5] is kept, and [round(3.5) == 4]. *)
Example fmul_rounds :
  fmul 5 (3602879701896397 # 36028797018963968) == 1 # 2
  /\ round (fmul 5 (3602879701896397 # 36028797018963968)) = 0%Z
  /\ round (5 * (3602879701896397 # 36028797018963968)) = 1%Z
  /\ fmul (282578800148737 # 72057594037927936) 255 == 1
  /\ Qfloor ((282578800148737 # 72057594037927936) * 255) = 0%Z
  /\ fmul 7 (1 # 2) == 7 # 2
  /\ round (fmul 7 (1 # 2)) = 4%Z.
Proof. vm_compute. repeat split. Qed.

End FloatFacts.

(** ** The header decoder *)

Module HeaderFacts.
Import Py PyM Header PyFacts.

Lemma bytes_ok (l : list Z) : Forall is_byte l -> bytes l = Ok l.
Proof.
  intros H. unfold bytes.
  assert (forallb is_byteb l = true) as ->; [|reflexivity].
  induction H as [|b l Hb _ IH]; simpl; [reflexivity|].
  rewrite IH. unfold is_byte in Hb. unfold is_byteb.
  destruct (Z.leb_spec 0 b), (Z.leb_spec b 255); simpl; lia.
Qed.

Lemma read_pe_index_ok (x : list Z) :
  (64 <= length x)%nat -> Forall is_byte (row_slice x 60 64) ->
  read_pe_index x = Ok (le32_at x 60).
Proof.
  intros Hlen Hb. unfold read_pe_index, getslice.
  destruct (Nat.leb_spec 64 (length x)) as [_|Hlt]; [|lia].
  cbn [rbind]. rewrite (bytes_ok _ Hb).
  unfold row_slice, le32_at. simpl.
  rewrite <- (take_drop 60 x) at 2 3 4 5.
  assert (Hl : length (take 60 x) = 60%nat) by (rewrite length_take; lia).
  assert (Hd : (4 <= length (drop 60 x))%nat) by (rewrite length_drop; lia).
  rewrite !app_nth2 by lia. rewrite Hl. simpl.
  destruct (drop 60 x) as [|b0 [|b1 [|b2 [|b3 rest]]]]; simpl in Hd; try lia.
  reflexivity.
Qed.

(** The three ways through [init_starting_point]. *)
Lemma init_starting_point_unfold (x : list Z) (self : problem) :
  init_starting_point x self
  = if optimize_all_dos self then
      match read_pe_index x with
      | Ok p =>
          (Ok tt,
           set_latent_space_size
             (length (range 2 60 ++ range 64 (Z.to_nat p)))
             (set_indexes_to_perturb
                (range 2 60 ++ range 64 (Z.to_nat p)) self))
      | Raise e => (Raise e, set_indexes_to_perturb (range 2 60) self)
      end
    else
      (Ok tt,
       set_latent_space_size 58 (set_indexes_to_perturb (range 2 60) self)).
Proof.
  unfold init_starting_point, bind, modify, get, lift, ret.
  cbn [optimize_all_dos set_indexes_to_perturb].
  destruct (optimize_all_dos self); [|reflexivity].
  destruct (read_pe_index x); reflexivity.
Qed.

Lemma range_nil (a b : nat) : (b <= a)%nat -> range a b = [].
Proof. intros H. unfold range. replace (b - a)%nat with 0%nat by lia. reflexivity. Qed.

Lemma elem_of_range (a b k : nat) : k ∈ range a b <-> (a <= k < b)%nat.
Proof. unfold range. rewrite elem_of_seq. lia. Qed.

Lemma range_ge (a b : nat) :
  Forall (fun k => (a <= k)%nat) (range a b).
Proof.
  apply list.Forall_forall. intros k Hk. apply elem_of_range in Hk. lia.
Qed.

Lemma init_starting_point_indexes (x : list Z) (self : problem) :
  Forall (fun k => (2 <= k)%nat)
    (indexes_to_perturb (snd (init_starting_point x self))).
Proof.
  rewrite init_starting_point_unfold.
  destruct (optimize_all_dos self); [|apply range_ge].
  destruct (read_pe_index x) as [p|e]; [|apply range_ge].
  cbn [snd indexes_to_perturb set_latent_space_size set_indexes_to_perturb].
  apply Forall_app. split; [apply range_ge|].
  eapply list.Forall_impl; [apply (range_ge 64)|].
  intros k Hk; simpl in Hk; lia.
Qed.

Lemma reachable_indexes (self : problem) :
  reachable self -> Forall (fun k => (2 <= k)%nat) (indexes_to_perturb self).
Proof.
  intros [o iv|x s _].
  - apply range_ge.
  - apply init_starting_point_indexes.
Qed.

Lemma perturb_frame (dt : dtype) (bv : list Z) (indexes : list nat) :
  forall (i : nat) (x x' : list Z),
    perturb dt bv i indexes x = Ok x' ->
    length x' = length x /\
    forall j : nat, j ∉ indexes -> x' !! j = x !! j.
Proof.
  induction indexes as [|index rest IH]; intros i x x' H; simpl in H.
  - inversion H; subst. split; [reflexivity|]. intros; reflexivity.
  - destruct (getitem bv i) as [v|e]; simpl in H; [|discriminate].
    destruct (Nat.ltb_spec index (length x)); [|discriminate].
    apply IH in H as [Hlen Hfr]. rewrite length_insert in Hlen.
    split; [exact Hlen|]. intros j Hj.
    apply not_elem_of_cons in Hj as [Hne Hj].
    rewrite (Hfr j Hj). apply list_lookup_insert_ne. congruence.
Qed.

Lemma perturb_returns (dt : dtype) (bv : list Z) (indexes : list nat) :
  forall (i : nat) (x : list Z),
    (i + length indexes <= length bv)%nat ->
    Forall (fun k => (k < length x)%nat) indexes ->
    exists x', perturb dt bv i indexes x = Ok x'.
Proof.
  induction indexes as [|index rest IH]; intros i x Hbv Hin; simpl.
  - eauto.
  - simpl in Hbv. apply list.Forall_cons in Hin as [Hk Hin].
    unfold getitem. destruct (lookup_lt_is_Some_2 bv i ltac:(lia)) as [v ->].
    simpl. destruct (Nat.ltb_spec index (length x)); [|lia].
    apply IH; [lia|]. rewrite length_insert. exact Hin.
Qed.


Lemma perturb_out_of_bounds (dt : dtype) (bv : list Z) (indexes : list nat) :
  forall (i : nat) (x : list Z),
    Exists (fun k => (length x <= k)%nat) indexes ->
    perturb dt bv i indexes x = Raise IndexError.
Proof.
  induction indexes as [|index rest IH]; intros i x Hex; simpl.
  - inversion Hex.
  - unfold getitem. destruct (bv !! i) as [v|]; simpl; [|reflexivity].
    destruct (Nat.ltb_spec index (length x)) as [Hlt|Hge]; [|reflexivity].
    apply IH. rewrite length_insert.
    apply Exists_cons in Hex as [Hk|Hex]; [lia|exact Hex].
Qed.

Lemma perturb_raises_index_error (dt : dtype) (bv : list Z)
    (indexes : list nat) :
  forall (i : nat) (x : list Z) (e : exn),
    perturb dt bv i indexes x = Raise e -> e = IndexError.
Proof.
  induction indexes as [|index rest IH]; intros i x e H; simpl in H.
  - discriminate.
  - unfold getitem in H. destruct (bv !! i) as [v|]; simpl in H.
    + destruct (index <? length x)%nat; [eapply IH; exact H|congruence].
    + congruence.
Qed.

Lemma perturb_ok_bounds (dt : dtype) (bv : list Z) (indexes : list nat) :
  forall (i : nat) (x x' : list Z),
    perturb dt bv i indexes x = Ok x' ->
    (length indexes <= length bv - i)%nat
    /\ Forall (fun k => (k < length x)%nat) indexes.
Proof.
  induction indexes as [|index rest IH]; intros i x x' H; simpl in H.
  - simpl. split; [lia|constructor].
  - unfold getitem in H. destruct (bv !! i) as [v|] eqn:Hv; simpl in H;
      [|discriminate].
    destruct (Nat.ltb_spec index (length x)) as [Hlt|]; [|discriminate].
    apply IH in H as [Hlen Hall]. rewrite length_insert in Hall.
    apply lookup_lt_Some in Hv. simpl. split; [lia|].
    constructor; assumption.
Qed.

(** When and how the loop ends. *)
Lemma perturb_outcome (dt : dtype) (bv : list Z) (indexes : list nat)
    (x : list Z) :
  let fits :=
    (length indexes <= length bv)%nat
    /\ Forall (fun k => (k < length x)%nat) indexes in
  (fits -> exists x_adv, perturb dt bv 0 indexes x = Ok x_adv)
  /\ (~ fits -> perturb dt bv 0 indexes x = Raise IndexError)
  /\ (forall e, perturb dt bv 0 indexes x = Raise e ->
                e = IndexError /\ ~ fits).
Proof.
  intros fits.
  assert (Hok : fits -> exists x_adv, perturb dt bv 0 indexes x = Ok x_adv).
  { intros [H1 H2]. apply perturb_returns; [lia|exact H2]. }
  assert (Hko : ~ fits -> perturb dt bv 0 indexes x = Raise IndexError).
  { intros Hn. destruct (perturb dt bv 0 indexes x) as [x'|e] eqn:Hrun.
    - exfalso. apply Hn. apply perturb_ok_bounds in Hrun as [H1 H2].
      split; [lia|exact H2].
    - f_equal. eapply perturb_raises_index_error; exact Hrun. }
  split; [exact Hok|]. split; [exact Hko|].
  intros e He. split; [eapply perturb_raises_index_error; exact He|].
  intros Hf. destruct (Hok Hf) as [x' Hx']. congruence.
Qed.

(** What the loop leaves at the offsets it has gone through, when no
    offset occurs twice. *)
Lemma perturb_writes (dt : dtype) (bv : list Z) (indexes : list nat) :
  forall (i : nat) (x x' : list Z),
    NoDup indexes ->
    perturb dt bv i indexes x = Ok x' ->
    forall (j k : nat),
      indexes !! j = Some k -> x' !! k = cast dt <$> bv !! (i + j)%nat.
Proof.
  induction indexes as [|index rest IH]; intros i x x' Hnd H j k Hj.
  - discriminate.
  - simpl in H. unfold getitem in H.
    destruct (bv !! i) as [v|] eqn:Hv; simpl in H; [|discriminate].
    destruct (Nat.ltb_spec index (length x)) as [Hlt|]; [|discriminate].
    apply list.NoDup_cons in Hnd as [Hnotin Hnd].
    destruct j as [|j]; simpl in Hj.
    + inversion Hj; subst k. rewrite Nat.add_0_r, Hv.
      destruct (perturb_frame _ _ _ _ _ _ H) as [_ Hfr].
      rewrite (Hfr index Hnotin). apply list_lookup_insert_eq. exact Hlt.
    + rewrite (IH (S i) _ _ Hnd H j k Hj). f_equal. f_equal. lia.
Qed.



(** The offsets of a reachable configuration: 2..59, then 64 onwards. *)
Lemma reachable_indexes_shape (self : Header.problem) :
  reachable self ->
  exists n : nat, indexes_to_perturb self = range 2 60 ++ range 64 n.
Proof.
  intros [o iv|x s _].
  - exists 0%nat. rewrite (range_nil 64 0) by lia. rewrite app_nil_r.
    reflexivity.
  - rewrite init_starting_point_unfold.
    destruct (optimize_all_dos s).
    + destruct (read_pe_index x) as [p|e]; cbn [snd indexes_to_perturb
        set_latent_space_size set_indexes_to_perturb].
      * eexists; reflexivity.
      * exists 0%nat. rewrite (range_nil 64 0) by lia.
        rewrite app_nil_r. reflexivity.
    + exists 0%nat. rewrite (range_nil 64 0) by lia. rewrite app_nil_r.
      reflexivity.
Qed.

(** They are strictly increasing, and none is below 2 or among 60..63. *)
Lemma reachable_offsets (self : Header.problem) :
  reachable self ->
  (forall (i j a b : nat),
     (i < j)%nat ->
     indexes_to_perturb self !! i = Some a ->
     indexes_to_perturb self !! j = Some b ->
     (a < b)%nat)
  /\ NoDup (indexes_to_perturb self)
  /\ forall k : nat,
       k ∈ indexes_to_perturb self ->
       (2 <= k < 60)%nat \/ (64 <= k)%nat.
Proof.
  intros Hreach. destruct (reachable_indexes_shape self Hreach) as [n ->].
  assert (Hmem : forall k, k ∈ range 2 60 ++ range 64 n ->
                           (2 <= k < 60)%nat \/ (64 <= k)%nat).
  { intros k Hk. apply elem_of_app in Hk as [Hk|Hk];
      apply elem_of_range in Hk; lia. }
  assert (Hsorted : forall (i j a b : nat),
             (i < j)%nat ->
             (range 2 60 ++ range 64 n) !! i = Some a ->
             (range 2 60 ++ range 64 n) !! j = Some b ->
             (a < b)%nat).
  { assert (Hl : length (range 2 60) = 58%nat) by reflexivity.
    assert (Hr : forall a b i v, range a b !! i = Some v -> v = (a + i)%nat).
    { intros a b i v Hv. unfold range in Hv.
      apply lookup_seq in Hv. lia. }
    intros i j a b Hij Ha Hb.
    apply lookup_app_Some in Ha as [Ha|[Hia Ha]];
      apply lookup_app_Some in Hb as [Hb|[Hjb Hb]].
    - apply Hr in Ha, Hb. lia.
    - pose proof (lookup_lt_Some _ _ _ Ha) as Hi. apply Hr in Ha, Hb. lia.
    - pose proof (lookup_lt_Some _ _ _ Hb) as Hj. lia.
    - apply Hr in Ha, Hb. lia. }
  split; [exact Hsorted|]. split; [|exact Hmem].
  apply NoDup_alt. intros i j a Hi Hj.
  destruct (Nat.lt_trichotomy i j) as [Hlt|[Heq|Hgt]]; [|exact Heq|].
  - pose proof (Hsorted i j a a Hlt Hi Hj). lia.
  - pose proof (Hsorted j i a a Hgt Hj Hi). lia.
Qed.

(** In a reachable configuration a decode that returns has stored, at
    the i-th offset, the i-th scaled component converted to the dtype of
    the sample. *)
Lemma decode_writes (dt : dtype) (self : Header.problem) (t : list Q)
    (x x_adv : list Z) :
  reachable self ->
  apply_feasible_manipulations dt self t x = Ok x_adv ->
  forall (i k : nat),
    indexes_to_perturb self !! i = Some k ->
    exists ti : Q,
      t !! i = Some ti
      /\ x_adv !! k = Some (cast dt (astype_int (fmul ti 255))).
Proof.
  intros Hreach Hrun i k Hk.
  destruct (reachable_offsets self Hreach) as (_ & Hnd & _).
  unfold apply_feasible_manipulations in Hrun.
  pose proof (perturb_writes _ _ _ _ _ _ Hnd Hrun i k Hk) as Hw.
  apply perturb_ok_bounds in Hrun as [Hlen _].
  unfold byte_values in Hlen. rewrite length_map in Hlen.
  destruct (lookup_lt_is_Some_2 t i) as [ti Hti].
  { apply lookup_lt_Some in Hk. lia. }
  exists ti. split; [exact Hti|].
  rewrite Hw. unfold byte_values. simpl.
  rewrite list_lookup_fmap, Hti. reflexivity.
Qed.

End HeaderFacts.

(** ** Claims about the padding and the header decoders *)

Module ByteDecoders.
Import Py PyM PyFacts FloatFacts HeaderFacts.

Lemma byte_values_unit (t : list Q) :
  Forall unit_interval t ->
  byte_values t = map (fun ti => Qfloor (fmul ti 255)) t
  /\ Forall is_byte (byte_values t).
Proof.
  induction 1 as [|ti t Hti _ [IHeq IHb]]; simpl.
  - split; [reflexivity|constructor].
  - destruct (byte_value_unit ti Hti) as [Heq Hb].
    split; [rewrite Heq, IHeq; reflexivity|].
    constructor; assumption.
Qed.

(** C6. For a latent vector with all components in [0,1], the padding
    decoder returns the original entries followed by the components
    scaled by 255 and floored, in order; the scaling is a float64
    product, the binary64 value of the exact product, and the floor of
    it is a byte.  With a budget of 10 bytes the all-zero vector appends
    ten 0 and the all-one vector ten 255. *)
Theorem padding_appends_floored_bytes
    (self : Padding.problem) (t : list Q) (x : list Z) :
  Forall unit_interval t ->
  Padding.apply_feasible_manipulations self t x
  = x ++ map (fun ti => Qfloor (fmul ti 255)) t
  /\ Forall (fun ti =>
               binary64_nearest (ti * 255) (fmul ti 255)
               /\ is_byte (Qfloor (fmul ti 255))) t
  /\ (forall iv : Z,
        Padding.apply_feasible_manipulations (Padding.init 10 iv)
          (replicate (Padding.latent_space_size (Padding.init 10 iv)) 0%Q) x
        = x ++ replicate 10 0)
  /\ (forall iv : Z,
        Padding.apply_feasible_manipulations (Padding.init 10 iv)
          (replicate (Padding.latent_space_size (Padding.init 10 iv)) 1%Q) x
        = x ++ replicate 10 255).
Proof.
  intros Ht. unfold Padding.apply_feasible_manipulations.
  destruct (byte_values_unit t Ht) as [-> _].
  split; [reflexivity|]. split; [|split].
  - eapply list.Forall_impl; [exact Ht|]. intros ti Hti.
    split; [apply fmul_binary64|].
    destruct (byte_value_unit ti Hti) as [<- Hb]. exact Hb.
  - intros iv. f_equal.
  - intros iv. f_equal.
Qed.

(** The components 0, 1/2 and 1, and the float nearest to 1/255: 255
    times the latter is the float 1.0, although the exact product is
    below 1. *)
Lemma padding_appends_floored_bytes_witness :
  let t := [0; 1 # 2; 1; 282578800148737 # 72057594037927936]%Q in
  Forall unit_interval t /\
  Padding.apply_feasible_manipulations (Padding.init 4 256) t [77; 90]
  = [77; 90; 0; 127; 255; 1].
Proof.
  intros t.
  assert (H : Forall unit_interval t).
  { unit_interval_literals. }
  split; [exact H|].
  rewrite (proj1 (padding_appends_floored_bytes
                    (Padding.init 4 256) t [77; 90] H)).
  vm_compute. reflexivity.
Defined.

(** C2. Without [optimize_all_dos] the offsets to perturb are exactly
    2..59 whatever the sample holds; with it, once [init_starting_point]
    has read the little-endian pointer P at offsets 60..63, they are
    2..59 followed by 64..P-1 when P > 64 and 2..59 alone when P <= 64;
    [latent_space_size] is the number of offsets. *)
Theorem header_indexes_to_perturb (self : Header.problem) (x : list Z) :
  (forall iv : Z, Header.indexes_to_perturb (Header.init false iv) = range 2 60)
  /\ (Header.optimize_all_dos self = false ->
      exists self',
        Header.init_starting_point x self = (Ok tt, self')
        /\ Header.indexes_to_perturb self' = range 2 60
        /\ Header.latent_space_size self'
           = length (Header.indexes_to_perturb self'))
  /\ (Header.optimize_all_dos self = true ->
      (64 <= length x)%nat ->
      Forall is_byte (Header.row_slice x 60 64) ->
      let P := Header.le32_at x 60 in
      exists self',
        Header.init_starting_point x self = (Ok tt, self')
        /\ Header.indexes_to_perturb self'
           = (if 64 <? P then range 2 60 ++ range 64 (Z.to_nat P)
              else range 2 60)
        /\ Header.latent_space_size self'
           = length (Header.indexes_to_perturb self')).
Proof.
  split; [reflexivity|]. split.
  - intros Ho. rewrite init_starting_point_unfold, Ho.
    eexists; split; [reflexivity|]. split; reflexivity.
  - intros Ho Hlen Hb P. rewrite init_starting_point_unfold, Ho.
    rewrite (read_pe_index_ok x Hlen Hb). fold P.
    eexists; split; [reflexivity|].
    cbn [Header.indexes_to_perturb Header.latent_space_size
         Header.set_latent_space_size Header.set_indexes_to_perturb].
    split; [|reflexivity].
    destruct (Z.ltb_spec 64 P) as [Hgt|Hle]; [reflexivity|].
    rewrite (range_nil 64 (Z.to_nat P)) by lia. apply app_nil_r.
Qed.

Lemma header_indexes_to_perturb_witness :
  let x := replicate 60 0 ++ [66; 0; 0; 0] ++ replicate 8 7 in
  exists self',
    Header.init_starting_point x (Header.init true 256) = (Ok tt, self')
    /\ Header.indexes_to_perturb self' = range 2 60 ++ [64; 65]%nat
    /\ Header.latent_space_size self' = 60%nat.
Proof.
  intros x.
  assert (Hlen : (64 <= length x)%nat) by (vm_compute; lia).
  assert (Hb : Forall is_byte (Header.row_slice x 60 64)).
  { repeat constructor; unfold is_byte; lia. }
  destruct (proj2 (proj2 (header_indexes_to_perturb (Header.init true 256) x))
              eq_refl Hlen Hb) as (self' & Hrun & Hidx & Hsz).
  exists self'. split; [exact Hrun|]. split.
  - rewrite Hidx. reflexivity.
  - rewrite Hsz, Hidx. reflexivity.
Defined.

End ByteDecoders.

Module HeaderClaims.
Import Py PyM PyFacts HeaderFacts.

(** C7. Whatever the latent vector, the sample and its dtype, a header
    decode that returns a sample returns one of the same length in which
    every offset outside [indexes_to_perturb] holds what it held before;
    in every configuration the class can reach, offsets 0 and 1 are among
    them. *)
Theorem header_decode_frame (dt : dtype)
    (self : Header.problem) (t : list Q) (x x_adv : list Z) :
  Header.apply_feasible_manipulations dt self t x = Ok x_adv ->
  length x_adv = length x
  /\ (forall j : nat,
        j ∉ Header.indexes_to_perturb self -> x_adv !! j = x !! j)
  /\ (Header.reachable self ->
      (0%nat ∉ Header.indexes_to_perturb self)
      /\ (1%nat ∉ Header.indexes_to_perturb self)
      /\ x_adv !! 0%nat = x !! 0%nat /\ x_adv !! 1%nat = x !! 1%nat).
Proof.
  intros Hrun. unfold Header.apply_feasible_manipulations in Hrun.
  apply perturb_frame in Hrun as [Hlen Hfr].
  split; [exact Hlen|]. split; [exact Hfr|].
  intros Hreach. apply reachable_indexes in Hreach.
  assert (Hnot : forall j : nat,
             (j < 2)%nat -> j ∉ Header.indexes_to_perturb self).
  { intros j Hj Hin.
    pose proof (proj1 (list.Forall_forall _ _) Hreach j Hin) as Hge.
    simpl in Hge. lia. }
  repeat split; try apply Hfr; apply Hnot; lia.
Qed.

Lemma header_decode_frame_witness :
  let x := [77; 90] ++ replicate 62 7 in
  let t := replicate 58 (1 # 2)%Q in
  let x_adv := [77; 90] ++ replicate 58 127 ++ replicate 4 7 in
  Header.apply_feasible_manipulations uint8 (Header.init false 256) t x
  = Ok x_adv
  /\ length x_adv = length x
  /\ x_adv !! 0%nat = Some 77 /\ x_adv !! 1%nat = Some 90.
Proof.
  intros x t x_adv.
  assert (Hrun : Header.apply_feasible_manipulations uint8
                   (Header.init false 256) t x = Ok x_adv)
    by (vm_compute; reflexivity).
  split; [exact Hrun|].
  destruct (header_decode_frame uint8 (Header.init false 256) t x x_adv Hrun)
    as (Hlen & _ & Hmagic).
  split; [exact Hlen|].
  destruct (Hmagic (Header.reach_init false 256)) as (_ & _ & H0 & H1).
  split; [rewrite H0|rewrite H1]; reflexivity.
Defined.

(** C4, as the code has it.  With [optimize_all_dos], a sample of at
    least 64 entries whose offsets 60..63 hold bytes is accepted by
    [init_starting_point] even when the pointer P read there lies beyond
    the end of the sample: the call returns, [indexes_to_perturb] is 2..59
    followed by 64..P-1, and no fallback to 2..59 takes place.  Every
    later decode of that sample, whatever its dtype, then raises
    [IndexError]. *)
Theorem header_pointer_not_validated (self : Header.problem) (x : list Z) :
  Header.optimize_all_dos self = true ->
  (64 <= length x)%nat ->
  Forall is_byte (Header.row_slice x 60 64) ->
  (Z.of_nat (length x) < Header.le32_at x 60) ->
  exists self',
    Header.init_starting_point x self = (Ok tt, self')
    /\ Header.indexes_to_perturb self'
       = range 2 60 ++ range 64 (Z.to_nat (Header.le32_at x 60))
    /\ length x ∈ Header.indexes_to_perturb self'
    /\ forall (dt : dtype) (t : list Q),
         Header.apply_feasible_manipulations dt self' t x = Raise IndexError.
Proof.
  intros Ho Hlen Hb Hout.
  rewrite init_starting_point_unfold, Ho, (read_pe_index_ok x Hlen Hb).
  eexists; split; [reflexivity|].
  cbn [Header.indexes_to_perturb Header.set_latent_space_size
       Header.set_indexes_to_perturb].
  split; [reflexivity|].
  assert (Hin : length x ∈ range 2 60 ++ range 64 (Z.to_nat (Header.le32_at x 60))).
  { apply elem_of_app. right. apply elem_of_range. lia. }
  split; [exact Hin|].
  intros dt t. unfold Header.apply_feasible_manipulations.
  cbn [Header.indexes_to_perturb Header.set_latent_space_size
       Header.set_indexes_to_perturb].
  apply perturb_out_of_bounds. apply list.Exists_exists.
  exists (length x). split; [exact Hin|lia].
Qed.

Lemma header_pointer_not_validated_witness :
  let x := replicate 60 0 ++ [128; 0; 0; 0] in
  exists self',
    Header.init_starting_point x (Header.init true 256) = (Ok tt, self')
    /\ Header.apply_feasible_manipulations uint8 self'
         (replicate (Header.latent_space_size self') 0%Q) x
       = Raise IndexError.
Proof.
  intros x.
  assert (Hlen : (64 <= length x)%nat) by (vm_compute; lia).
  assert (Hb : Forall is_byte (Header.row_slice x 60 64)).
  { repeat constructor; unfold is_byte; lia. }
  assert (Hout : Z.of_nat (length x) < Header.le32_at x 60)
    by (vm_compute; reflexivity).
  destruct (header_pointer_not_validated (Header.init true 256) x
              eq_refl Hlen Hb Hout) as (self' & Hrun & _ & _ & Hdec).
  exists self'. split; [exact Hrun|apply Hdec].
Defined.

(** C4, as stated, fails: a 64-entry sample whose pointer is 128 is
    taken without any error, and the offsets 64..127, none of which
    exists in the sample, are scheduled for perturbation. *)
Lemma header_pointer_out_of_bounds_accepted :
  let x := replicate 60 0 ++ [128; 0; 0; 0] in
  length x = 64%nat
  /\ Header.le32_at x 60 = 128
  /\ fst (Header.init_starting_point x (Header.init true 256)) = Ok tt
  /\ Header.indexes_to_perturb
       (snd (Header.init_starting_point x (Header.init true 256)))
     = range 2 60 ++ range 64 128
  /\ Header.latent_space_size
       (snd (Header.init_starting_point x (Header.init true 256)))
     = 122%nat.
Proof. vm_compute. repeat split. Qed.

End HeaderClaims.

(** ** The raw-append decoder *)

Module GammaFacts.
Import Py PyFacts FloatFacts Gamma.

Lemma take_count_mono (content : list Z) (t1 t2 : Q) :
  (t1 <= t2)%Q -> take_count content t1 <= take_count content t2.
Proof. intros Hle. unfold take_count. apply take_mono; [lia|exact Hle]. Qed.

Lemma take_count_nonneg (content : list Z) (ti : Q) :
  (0 <= ti)%Q -> 0 <= take_count content ti.
Proof.
  intros H. unfold take_count. apply round_nonneg.
  unfold fmul. apply round64_nonneg.
  pose proof (of_int_nonneg (Z.of_nat (length content)) ltac:(lia)). nra.
Qed.

Lemma take_count_unit (content : list Z) (ti : Q) :
  float_len content -> unit_interval ti ->
  0 <= take_count content ti <= Z.of_nat (length content).
Proof.
  unfold float_len. intros Hlen Hu. apply take_bounds; [lia|exact Hu].
Qed.

(** The take is the float64 product of the length and the component,
    rounded to the nearest integer, to the even one on a tie. *)
Lemma take_count_nearest (content : list Z) (ti : Q) :
  let len := of_int (Z.of_nat (length content)) in
  binary64_nearest (len * ti) (fmul len ti)
  /\ nearest_even (fmul len ti) (take_count content ti)
  /\ (float_len content -> (len == inject_Z (Z.of_nat (length content)))%Q).
Proof.
  cbv zeta. split; [apply fmul_binary64|]. split; [apply round_nearest|].
  unfold float_len. intros H. apply of_int_exact. lia.
Qed.

Lemma content_to_append_prefix (content : list Z) (ti : Q) :
  0 <= take_count content ti ->
  content_to_append content ti
  = take (Z.to_nat (take_count content ti)) content.
Proof.
  intros H. unfold content_to_append, slice_to.
  destruct (Z.leb_spec 0 (take_count content ti)); [reflexivity|lia].
Qed.

Lemma content_to_append_length (content : list Z) (ti : Q) :
  float_len content -> unit_interval ti ->
  Z.of_nat (length (content_to_append content ti)) = take_count content ti.
Proof.
  intros Hf Hu. pose proof (take_count_unit content ti Hf Hu) as [H0 H1].
  rewrite content_to_append_prefix by exact H0.
  rewrite length_take. lia.
Qed.


(** The loop over [k, k+1, ..., k+n-1] appends the prefixes cut from the
    corpus entries at these positions. *)
Lemma append_loop_seq (pop : list (list Z)) (t : list Q) :
  forall (n k : nat) (x : list Z),
    (k + n <= length pop)%nat -> (k + n <= length t)%nat ->
    append_loop pop t (seq k n) x
    = Ok (x ++ concat (zip_with content_to_append
                         (take n (drop k pop)) (take n (drop k t)))).
Proof.
  induction n as [|n IH]; intros k x Hp Ht; simpl.
  - rewrite app_nil_r. reflexivity.
  - destruct (lookup_lt_is_Some_2 pop k ltac:(lia)) as [c Hc].
    destruct (lookup_lt_is_Some_2 t k ltac:(lia)) as [ti Hti].
    unfold getitem. rewrite Hc, Hti. simpl.
    rewrite IH by lia.
    rewrite (drop_S pop c k Hc), (drop_S t ti k Hti). simpl.
    rewrite <- app_assoc. reflexivity.
Qed.

Lemma apply_feasible_manipulations_eq (self : problem) (t : list Q) (x : list Z) :
  (length t <= length (section_population self))%nat ->
  apply_feasible_manipulations self t x
  = Ok (x ++ concat (zip_with content_to_append (section_population self) t)).
Proof.
  intros Hlen. unfold apply_feasible_manipulations, range.
  rewrite append_loop_seq by lia. rewrite !drop_0, Nat.sub_0_r.
  rewrite firstn_all.
  do 3 f_equal. clear x Hlen. generalize (section_population self) as pop.
  induction t as [|ti t IH]; intros [|c pop]; simpl; try reflexivity.
  rewrite IH. reflexivity.
Qed.

Lemma appended_length (pop : list (list Z)) :
  Forall float_len pop ->
  forall t : list Q,
    Forall unit_interval t ->
    Z.of_nat (length (concat (zip_with content_to_append pop t)))
    = foldr Z.add 0 (zip_with take_count pop t).
Proof.
  induction 1 as [|c pop Hc _ IH]; intros [|ti t] Hu; simpl; try reflexivity.
  apply list.Forall_cons in Hu as [Hti Hu].
  rewrite length_app, Nat2Z.inj_add, (IH t Hu).
  rewrite (content_to_append_length c ti Hc Hti). reflexivity.
Qed.


End GammaFacts.

Module GammaClaims.
Import Py PyFacts FloatFacts GammaFacts.

(** C5. For a latent vector in [0,1]^d, d the number of corpus entries,
    the raw-append decoder returns the original entries followed, entry by
    entry and in order, by the first take_i entries of each content,
    where take_i = round(len(content_i) * t_i): the float64 product of
    the length and the component, rounded to the nearest integer and to
    the even one on a tie.  The size grows by exactly the sum of the
    take_i (the lengths being float64 values, as those of all lists
    are), and take_i does not decrease when t_i grows. *)
Theorem raw_append_decode (self : Gamma.problem) (t : list Q) (x : list Z) :
  length t = length (Gamma.section_population self) ->
  Forall unit_interval t ->
  let pop := Gamma.section_population self in
  exists x_adv,
    Gamma.apply_feasible_manipulations self t x = Ok x_adv
    /\ x_adv
       = x ++ concat (zip_with
                        (fun content ti =>
                           take (Z.to_nat (Gamma.take_count content ti)) content)
                        pop t)
    /\ (Forall float_len pop ->
        Z.of_nat (length x_adv)
        = Z.of_nat (length x)
          + foldr Z.add 0 (zip_with Gamma.take_count pop t))
    /\ (forall (content : list Z) (t1 t2 : Q),
          (t1 <= t2)%Q ->
          Gamma.take_count content t1 <= Gamma.take_count content t2)
    /\ (forall (content : list Z) (ti : Q),
          let len := of_int (Z.of_nat (length content)) in
          binary64_nearest (len * ti) (fmul len ti)
          /\ nearest_even (fmul len ti) (Gamma.take_count content ti)
          /\ (float_len content ->
              (len == inject_Z (Z.of_nat (length content)))%Q)).
Proof.
  intros Hlen Hu pop. eexists. split.
  - apply apply_feasible_manipulations_eq. lia.
  - fold pop. split; [|split; [|split]].
    + f_equal. f_equal. clear Hlen. revert t Hu. generalize pop as l.
      induction l as [|c l IH]; intros [|ti t] Hu; simpl; try reflexivity.
      apply list.Forall_cons in Hu as [Hti Hu].
      rewrite (IH t Hu), content_to_append_prefix; [reflexivity|].
      apply take_count_nonneg. apply Hti.
    + intros Hf.
      rewrite length_app, Nat2Z.inj_add, (appended_length pop Hf t Hu).
      reflexivity.
    + apply take_count_mono.
    + apply take_count_nearest.
Qed.

(** Half of a 7-byte content is 3.5, of which 4 bytes are taken; the
    float 0.1 of a 5-byte content is the float 0.5, of which none is
    taken, although the exact product is above one half; half of a
    5-byte content is 2.5, of which 2 bytes are taken. *)
Lemma raw_append_decode_witness :
  let self :=
    Gamma.init [[1; 2; 3; 4; 5; 6; 7]; [8; 9; 10; 11; 12];
                [13; 14; 15; 16; 17]] in
  let t := [1 # 2; 3602879701896397 # 36028797018963968; 1 # 2]%Q in
  Gamma.apply_feasible_manipulations self t [77; 90]
  = Ok [77; 90; 1; 2; 3; 4; 13; 14].
Proof.
  intros self t.
  assert (Hu : Forall unit_interval t).
  { unit_interval_literals. }
  destruct (raw_append_decode self t [77; 90] eq_refl Hu)
    as (x_adv & Hrun & Heq & _).
  rewrite Hrun, Heq. vm_compute. reflexivity.
Defined.

End GammaClaims.

(** ** The registered-section decoder *)

Module SectionFacts.
Import Py PyM PyFacts GammaSections SectionSpec.

Lemma random_letters_run (n : nat) :
  forall self : problem,
    random_letters n self
    = (Ok (map (letter_at (random self)) (seq 0 n)),
       set_random (advance n (random self)) self).
Proof.
  induction n as [|n IH]; intros self.
  - destruct self as [? ? ? ? ? ? ? ? []]; reflexivity.
  - cbn [random_letters]. unfold bind at 1.
    unfold random_choice at 1. unfold bind at 1. rewrite IH.
    unfold ret. cbn [seq map random set_random].
    assert (Hl : map (letter_at {| tape := tape (random self);
                                   cursor := S (cursor (random self)) |})
                   (seq 0 n)
                 = map (letter_at (random self)) (seq 1 n)).
    { rewrite <- seq_shift, map_map. apply map_ext. intros k.
      unfold letter_at. cbn [tape cursor].
      rewrite Nat.add_succ_r. reflexivity. }
    rewrite Hl. unfold advance. cbn [tape cursor].
    rewrite Nat.add_succ_r. reflexivity.
Qed.

Lemma fresh_name_run (self : problem) :
  fresh_name self
  = (Ok (name_at (random self) 0), set_random (advance 8 (random self)) self).
Proof.
  unfold fresh_name, bind. rewrite random_letters_run. unfold ret, name_at.
  assert (Hl : map (letter_at (random self)) (seq 0 8)
               = map (fun k => letter_at (random self) (k + 0)) (seq 0 8)).
  { apply map_ext. intros k. rewrite Nat.add_0_r. reflexivity. }
  rewrite Hl. reflexivity.
Qed.

Lemma name_at_advance (r : random_state) (n j : nat) :
  name_at (advance n r) j = name_at r (j + n).
Proof.
  unfold name_at. f_equal. apply map_ext. intros k.
  unfold letter_at, advance. cbn [tape cursor].
  rewrite !Nat.add_assoc. reflexivity.
Qed.


Lemma injected_cons (nm : string) (names : list string) (c : list Z)
    (pop : list (list Z)) (ti : Q) (t : list Q) :
  injected (nm :: names) (c :: pop) (ti :: t)
  = {| name := nm; content := Gamma.content_to_append c ti |}
    :: injected names pop t.
Proof. reflexivity. Qed.

(** The loop while a best name list is recorded: the names are read off
    it and the object is left as it was. *)
Lemma loop_reuse (self : problem) (t : list Q) :
  best_names_ self <> [] ->
  forall (n k : nat) (names : list string) (b : pe_edit),
    (k + n <= length (section_population self))%nat ->
    (k + n <= length t)%nat ->
    (k + n <= length (best_names_ self))%nat ->
    for_each (seq k n) (inject_section t) (names, Some b) self
    = (Ok (names ++ take n (drop k (best_names_ self)),
           Some {| parsed := parsed b;
                   added :=
                     added b
                     ++ injected (take n (drop k (best_names_ self)))
                          (take n (drop k (section_population self)))
                          (take n (drop k t)) |}),
       self).
Proof.
  intros Hbest. induction n as [|n IH]; intros k names b Hp Ht Hb.
  - cbn [seq for_each take]. unfold ret, injected. cbn [zip_with].
    rewrite !app_nil_r. destruct b; reflexivity.
  - destruct (lookup_lt_is_Some_2 (section_population self) k ltac:(lia))
      as [c Hc].
    destruct (lookup_lt_is_Some_2 t k ltac:(lia)) as [ti Hti].
    destruct (lookup_lt_is_Some_2 (best_names_ self) k ltac:(lia))
      as [nm Hnm].
    cbn [seq for_each]. unfold bind at 1.
    assert (Hstep : inject_section t k (names, Some b) self
                    = (Ok (names ++ [nm],
                           Some (add_section b
                                   {| name := nm;
                                      content := Gamma.content_to_append c ti |})),
                       self)).
    { unfold inject_section, bind, get, lift, ret, getitem. cbn [fst snd].
      rewrite Hc, Hti. rewrite (bool_decide_eq_true_2 _ Hbest).
      rewrite Hnm. reflexivity. }
    rewrite Hstep, IH by lia.
    rewrite (drop_S _ c k Hc), (drop_S _ ti k Hti), (drop_S _ nm k Hnm).
    cbn [take]. rewrite injected_cons. unfold add_section.
    cbn [parsed added]. rewrite <- !app_assoc. reflexivity.
Qed.

Lemma advance_advance (a b : nat) (r : random_state) :
  advance a (advance b r) = advance (a + b) r.
Proof. unfold advance. cbn [tape cursor]. f_equal. lia. Qed.

Lemma fresh_names_S (r : random_state) (n : nat) :
  fresh_names r (S n) = name_at r 0 :: fresh_names (advance 8 r) n.
Proof.
  unfold fresh_names. cbn [seq map]. f_equal.
  rewrite <- seq_shift, map_map. apply map_ext. intros i.
  rewrite name_at_advance. f_equal. lia.
Qed.

Lemma fresh_names_length (r : random_state) (n : nat) :
  length (fresh_names r n) = n.
Proof. unfold fresh_names. rewrite length_map, length_seq. reflexivity. Qed.

(** The loop while none is recorded: eight draws per corpus entry. *)
Lemma loop_fresh (t : list Q) :
  forall (n k : nat) (names : list string) (b : pe_edit) (self : problem),
    best_names_ self = [] ->
    (k + n <= length (section_population self))%nat ->
    (k + n <= length t)%nat ->
    for_each (seq k n) (inject_section t) (names, Some b) self
    = (Ok (names ++ fresh_names (random self) n,
           Some {| parsed := parsed b;
                   added :=
                     added b
                     ++ injected (fresh_names (random self) n)
                          (take n (drop k (section_population self)))
                          (take n (drop k t)) |}),
       set_random (advance (8 * n) (random self)) self).
Proof.
  induction n as [|n IH]; intros k names b self Hbest Hp Ht.
  - cbn [seq for_each take]. unfold ret, injected, fresh_names.
    cbn [seq map zip_with]. rewrite !app_nil_r.
    destruct b; destruct self as [? ? ? ? ? ? ? ? []]; reflexivity.
  - destruct (lookup_lt_is_Some_2 (section_population self) k ltac:(lia))
      as [c Hc].
    destruct (lookup_lt_is_Some_2 t k ltac:(lia)) as [ti Hti].
    cbn [seq for_each]. unfold bind at 1.
    set (nm := name_at (random self) 0).
    set (self1 := set_random (advance 8 (random self)) self).
    assert (Hstep : inject_section t k (names, Some b) self
                    = (Ok (names ++ [nm],
                           Some (add_section b
                                   {| name := nm;
                                      content := Gamma.content_to_append c ti |})),
                       self1)).
    { unfold inject_section, bind, get, lift, ret, getitem. cbn [fst snd].
      rewrite Hc, Hti. rewrite bool_decide_eq_false_2 by (rewrite Hbest; tauto).
      rewrite fresh_name_run. reflexivity. }
    rewrite Hstep. rewrite (IH (S k) _ _ self1);
      [|exact Hbest|cbn [section_population self1 set_random]; lia|lia].
    subst self1. cbn [random set_random section_population].
    rewrite (drop_S _ c k Hc), (drop_S _ ti k Hti).
    cbn [take]. rewrite fresh_names_S, injected_cons. fold nm.
    rewrite advance_advance. unfold add_section.
    cbn [parsed added]. rewrite <- !app_assoc.
    replace (8 * n + 8)%nat with (8 * S n)%nat by lia. reflexivity.
Qed.

End SectionFacts.

Module SectionDecode.
Import Py PyM PyFacts FloatFacts GammaFacts GammaSections SectionSpec
       SectionFacts.

(** The test of the sample builder is the one of the contract. *)
Lemma takes_spec (maximum : option nat) (new : list pe_section) :
  forall taken : list string,
    Codec.takes maximum taken new = true
    <-> (NoDup (name <$> new) /\ Forall (fun s => name s ∉ taken) new)
        /\ within_maximum maximum new.
Proof.
  induction new as [|s rest IH]; intros taken.
  - cbn. split; [|reflexivity]. intros _.
    split; [split; [apply NoDup_nil_2|constructor]|].
    intros m _. constructor.
  - cbn [Codec.takes fmap list_fmap].
    rewrite !andb_true_iff, negb_true_iff, bool_decide_eq_false.
    rewrite (IH (name s :: taken)). rewrite list.NoDup_cons.
    rewrite !list.Forall_cons. unfold within_maximum.
    assert (Hrest : Forall (fun s' => name s' ∉ name s :: taken) rest
                    <-> (name s ∉ name <$> rest)
                        /\ Forall (fun s' => name s' ∉ taken) rest).
    { rewrite !list.Forall_forall. split.
      - intros H. split.
        + intros Hin. apply list_elem_of_fmap in Hin as (s' & Heq & Hs').
          apply (H s' Hs'). rewrite <- Heq. apply list.elem_of_cons.
          left. reflexivity.
        + intros s' Hs' Hin. apply (H s' Hs').
          apply list.elem_of_cons. right. exact Hin.
      - intros [Hs H] s' Hs' Hin.
        apply list.elem_of_cons in Hin as [Heq|Hin].
        + apply Hs. apply list_elem_of_fmap. exists s'.
          split; [symmetry; exact Heq|exact Hs'].
        + exact (H s' Hs' Hin). }
    rewrite Hrest.
    assert (Hmax : match maximum with
                   | Some m => (length (content s) <=? m)%nat
                   | None => true
                   end = true
                   <-> (forall m : nat, maximum = Some m ->
                                        (length (content s) <= m)%nat)).
    { destruct maximum as [m|].
      - rewrite Nat.leb_le. split.
        + intros H m' Hm. inversion Hm; subst. exact H.
        + intros H. apply H. reflexivity.
      - split; [intros _ m Hm; discriminate|reflexivity]. }
    rewrite Hmax. split.
    + intros [[Hs Hm] [[Hnd [Hnr Hall]] Hw]].
      split; [split; [split; assumption|split; assumption]|].
      intros m Hmm. constructor; [apply Hm; exact Hmm|apply Hw; exact Hmm].
    + intros [[[Hnr Hnd] [Hs Hall]] Hw].
      split; [split; [exact Hs|]|].
      * intros m Hmm. pose proof (Hw m Hmm) as Hf.
        apply list.Forall_cons in Hf as [Hf _]. exact Hf.
      * split; [split; [exact Hnd|split; assumption]|].
        intros m Hmm. pose proof (Hw m Hmm) as Hf.
        apply list.Forall_cons in Hf as [_ Hf]. exact Hf.
Qed.

Lemma width_fits (p : positive) : Z.pos p < 2 ^ (Codec.width p * 8).
Proof.
  unfold Codec.width.
  pose proof (Z.log2_spec (Z.pos p) ltac:(lia)) as [_ Hlt].
  pose proof (Z.log2_nonneg (Z.pos p)) as Hnn.
  eapply Z.lt_le_trans; [exact Hlt|].
  apply Z.pow_le_mono_r; [lia|].
  pose proof (Z.div_mod (Z.log2 (Z.pos p)) 8 ltac:(lia)) as Hdm.
  pose proof (Z.mod_pos_bound (Z.log2 (Z.pos p)) 8 ltac:(lia)) as Hr.
  lia.
Qed.

Lemma width_nonneg (p : positive) : 0 <= Codec.width p.
Proof.
  unfold Codec.width.
  pose proof (Z.log2_nonneg (Z.pos p)).
  pose proof (Z.div_pos (Z.log2 (Z.pos p)) 8 ltac:(lia) ltac:(lia)).
  lia.
Qed.

Lemma codec_image (pe : pe_binary) : Codec.parse (Codec.image pe) = Some pe.
Proof.
  unfold Codec.parse, Codec.image.
  rewrite little_endian_to_Z_to_little_endian
    by (try lia; apply width_nonneg).
  rewrite Z.mod_small by (split; [lia|apply width_fits]).
  apply decode_encode.
Qed.


(** The sample parser and builder meet the contract of the builder. *)
Lemma codec_contract (maximum : option nat) :
  builder_contract Codec.parse (Codec.build maximum) maximum.
Proof.
  split; intros e; unfold acceptable, collision_free, Codec.build;
    pose proof (takes_spec maximum (added e) (name <$> sections (parsed e)))
      as Hspec.
  - intros Hacc. rewrite (proj2 Hspec Hacc).
    eexists; eexists. split; [reflexivity|].
    split; [apply codec_image|reflexivity].
  - intros Hrej.
    destruct (Codec.takes maximum (name <$> sections (parsed e)) (added e));
      [|reflexivity].
    exfalso. apply Hrej. apply Hspec. reflexivity.
Qed.

Lemma names_used_length (self : problem) :
  consistent self -> length (names_used self) = latent_space_size self.
Proof.
  intros [_ _ Hb]. unfold names_used.
  destruct (decide (best_names_ self = [])) as [He|Hne].
  - apply fresh_names_length.
  - destruct Hb as [Hb|Hb]; [contradiction|exact Hb].
Qed.

Lemma apply_reuse (parse : list Z -> option pe_binary)
    (build : pe_edit -> result (list Z)) (self : problem) (t : list Q)
    (x : list Z) (pe : pe_binary) :
  best_names_ self <> [] ->
  parse x = Some pe ->
  latent_space_size self = length (section_population self) ->
  length t = latent_space_size self ->
  length (best_names_ self) = latent_space_size self ->
  apply_feasible_manipulations parse build t x self
  = (build {| parsed := pe;
              added := injected (best_names_ self) (section_population self) t |},
     set_names_ (names_ self ++ [best_names_ self]) self).
Proof.
  intros Hbest Hparse Hd Ht Hb.
  unfold apply_feasible_manipulations, bind at 1, get, range.
  unfold bind at 1. rewrite Hparse, Nat.sub_0_r. cbn [fmap option_fmap option_map].
  rewrite (loop_reuse self t Hbest) by lia.
  rewrite !drop_0.
  assert (Hbb : take (latent_space_size self) (best_names_ self)
                = best_names_ self) by (rewrite <- Hb; apply firstn_all).
  assert (Hp : take (latent_space_size self) (section_population self)
               = section_population self) by (rewrite Hd; apply firstn_all).
  assert (Htt : take (latent_space_size self) t = t)
    by (rewrite <- Ht; apply firstn_all).
  rewrite Hbb, Hp, Htt. reflexivity.
Qed.

Lemma apply_fresh (parse : list Z -> option pe_binary)
    (build : pe_edit -> result (list Z)) (self : problem) (t : list Q)
    (x : list Z) (pe : pe_binary) :
  best_names_ self = [] ->
  parse x = Some pe ->
  latent_space_size self = length (section_population self) ->
  length t = latent_space_size self ->
  let d := latent_space_size self in
  let names := fresh_names (random self) d in
  apply_feasible_manipulations parse build t x self
  = (build {| parsed := pe;
              added := injected names (section_population self) t |},
     set_names_ (names_ self ++ [names])
       (set_random (advance (8 * d) (random self)) self)).
Proof.
  intros Hbest Hparse Hd Ht d names.
  unfold apply_feasible_manipulations, bind at 1, get, range.
  unfold bind at 1. rewrite Hparse, Nat.sub_0_r. cbn [fmap option_fmap option_map].
  rewrite (loop_fresh t) by (try exact Hbest; lia).
  rewrite !drop_0. fold d. fold names.
  assert (Hp : take d (section_population self) = section_population self)
    by (unfold d; rewrite Hd; apply firstn_all).
  assert (Htt : take d t = t) by (unfold d; rewrite <- Ht; apply firstn_all).
  rewrite Hp, Htt. reflexivity.
Qed.

(** However the names are chosen, a decode of a sample that parses, on
    a consistent object, hands the builder the parsed sample with one
    new section per corpus entry, and its outcome is the builder's. *)
Lemma apply_outcome (parse : list Z -> option pe_binary)
    (build : pe_edit -> result (list Z)) (self : problem) (t : list Q)
    (x : list Z) (pe : pe_binary) :
  consistent self ->
  parse x = Some pe ->
  length t = latent_space_size self ->
  apply_feasible_manipulations parse build t x self
  = (build {| parsed := pe;
              added := injected (names_used self) (section_population self) t |},
     decoded self).
Proof.
  intros [Hd _ Hb] Hparse Ht. unfold decoded, names_used.
  destruct (decide (best_names_ self = [])) as [He|Hne].
  - apply apply_fresh; assumption.
  - destruct Hb as [Hb|Hb]; [contradiction|].
    apply apply_reuse; assumption.
Qed.

Lemma injected_length (names : list string) (pop : list (list Z)) (t : list Q) :
  length names = length pop -> length t = length pop ->
  length (injected names pop t) = length pop.
Proof.
  intros Hn Ht. unfold injected. rewrite !length_zip_with. lia.
Qed.

Lemma injected_lookup (names : list string) (pop : list (list Z)) (t : list Q)
    (i : nat) (c : list Z) (ti : Q) :
  length names = length pop ->
  pop !! i = Some c -> t !! i = Some ti ->
  exists nm,
    names !! i = Some nm
    /\ injected names pop t !! i
       = Some {| name := nm; content := Gamma.content_to_append c ti |}.
Proof.
  intros Hn Hc Hti.
  destruct (lookup_lt_is_Some_2 names i) as [nm Hnm].
  { rewrite Hn. eapply lookup_lt_Some; exact Hc. }
  exists nm. split; [exact Hnm|].
  unfold injected. rewrite !lookup_zip_with, Hnm, Hc, Hti. reflexivity.
Qed.

(** C1, as the code has it.  On a consistent object, for a sample that
    parses and a latent vector in [0,1]^d, the decode hands the builder
    one new section for every corpus entry, d in all, also for the
    entries of which nothing is taken; the i-th holds the first take_i
    entries of content_i, take_i being the float64 product of the length
    and the component rounded to the nearest integer (to the even one on
    a tie), so that its content has length exactly take_i.  When the
    builder takes the new sections, no name colliding and no content
    being over the maximum, the decode returns, and re-parsing what it
    returns gives the original sections, unchanged and first, followed by
    the d new ones.  When the builder does not, the decode raises
    [RebuildError].  Either way the names have been recorded. *)
Theorem registered_sections_reparsed (parse : list Z -> option pe_binary)
    (build : pe_edit -> result (list Z)) (maximum : option nat)
    (self : problem) (t : list Q) (x : list Z) (pe : pe_binary) :
  builder_contract parse build maximum ->
  consistent self ->
  parse x = Some pe ->
  length t = latent_space_size self ->
  Forall unit_interval t ->
  Forall float_len (section_population self) ->
  let new := injected (names_used self) (section_population self) t in
  length new = latent_space_size self
  /\ (forall (i : nat) (c : list Z) (ti : Q),
        section_population self !! i = Some c ->
        t !! i = Some ti ->
        exists s,
          new !! i = Some s
          /\ content s = take (Z.to_nat (Gamma.take_count c ti)) c
          /\ Z.of_nat (length (content s)) = Gamma.take_count c ti
          /\ nearest_even (fmul (of_int (Z.of_nat (length c))) ti)
               (Gamma.take_count c ti))
  /\ (collision_free pe new -> within_maximum maximum new ->
      exists x_adv pe',
        apply_feasible_manipulations parse build t x self
        = (Ok x_adv, decoded self)
        /\ parse x_adv = Some pe'
        /\ sections pe' = sections pe ++ new
        /\ length (sections pe')
           = (length (sections pe) + latent_space_size self)%nat
        /\ take (length (sections pe)) (sections pe') = sections pe
        /\ forall (i : nat) (s : pe_section),
             new !! i = Some s ->
             sections pe' !! (length (sections pe) + i)%nat = Some s)
  /\ (~ (collision_free pe new /\ within_maximum maximum new) ->
      apply_feasible_manipulations parse build t x self
      = (Raise RebuildError, decoded self)).
Proof.
  intros [Hok Hko] Hcons Hparse Ht Hu Hf new.
  pose proof (names_used_length self Hcons) as Hn.
  pose proof (apply_outcome parse build self t x pe Hcons Hparse Ht) as Hrun.
  fold new in Hrun. destruct Hcons as [Hd _ _].
  assert (Hlen : length new = latent_space_size self).
  { unfold new. rewrite injected_length by lia. lia. }
  split; [exact Hlen|]. split; [|split].
  - intros i c ti Hc Hti.
    destruct (injected_lookup (names_used self) (section_population self) t
                i c ti ltac:(lia) Hc Hti) as (nm & _ & Hs).
    eexists. split; [exact Hs|]. cbn [content].
    assert (Hti' : unit_interval ti)
      by (eapply Forall_lookup_1; [exact Hu|exact Hti]).
    assert (Hc' : float_len c)
      by (eapply Forall_lookup_1; [exact Hf|exact Hc]).
    split; [|split].
    + apply content_to_append_prefix. apply take_count_nonneg. apply Hti'.
    + apply content_to_append_length; assumption.
    + apply round_nearest.
  - intros Hfree Hmax.
    destruct (Hok {| parsed := pe; added := new |}) as (x_adv & pe' & Hb & Hp & Hs).
    { split; assumption. }
    cbn [parsed added] in Hs.
    exists x_adv, pe'. rewrite Hrun, Hb.
    split; [reflexivity|]. split; [exact Hp|]. split; [exact Hs|].
    rewrite Hs. split; [rewrite length_app; lia|].
    split; [apply take_app_length|].
    intros i s Hi. rewrite lookup_app_r by lia.
    replace (length (sections pe) + i - length (sections pe))%nat
      with i by lia.
    exact Hi.
  - intros Hrej. rewrite Hrun.
    rewrite (Hko {| parsed := pe; added := new |} Hrej). reflexivity.
Qed.

Lemma init_consistent (pop : list (list Z)) (b : bool) (r : random_state) :
  consistent (init pop b r).
Proof. split; [reflexivity|constructor|left; reflexivity]. Qed.

Lemma float_len_literals (pop : list (list Z)) :
  forallb (fun c => Z.of_nat (length c) <=? 2 ^ 53) pop = true ->
  Forall float_len pop.
Proof.
  intros H. apply list.Forall_forall. intros c Hc.
  apply list_elem_of_In in Hc.
  pose proof (proj1 (forallb_forall _ _) H c Hc) as Hle.
  apply Z.leb_le in Hle. exact Hle.
Qed.

(** A binary with a section [.text], a corpus of two contents and the
    names "aaaaaaaa" and "bbbbbbbb": the rebuilt binary has three
    sections, the second of which holds two bytes and the third none. *)
Lemma registered_sections_reparsed_witness :
  let self := init [[1; 2; 3; 4]; [5; 6]] true Codec.name_tape in
  let t := [1 # 2; 0]%Q in
  let pe := {| sections := [{| name := ".text"; content := [195] |}];
               headers := [77; 90] |} in
  exists x_adv pe',
    apply_feasible_manipulations Codec.parse (Codec.build None) t
      (Codec.image pe) self
    = (Ok x_adv, decoded self)
    /\ Codec.parse x_adv = Some pe'
    /\ sections pe'
       = [{| name := ".text"; content := [195] |};
          {| name := "aaaaaaaa"; content := [1; 2] |};
          {| name := "bbbbbbbb"; content := [] |}].
Proof.
  intros self t pe.
  assert (Hu : Forall unit_interval t).
  { unit_interval_literals. }
  assert (Hf : Forall float_len (section_population self)).
  { apply float_len_literals. vm_compute. reflexivity. }
  pose proof (registered_sections_reparsed Codec.parse (Codec.build None) None
                self t (Codec.image pe) pe (codec_contract None)
                (init_consistent _ _ _) (codec_image pe) eq_refl Hu Hf)
    as (_ & _ & Hacc & _).
  assert (Htakes : Codec.takes None (name <$> sections pe)
                     (injected (names_used self) (section_population self) t)
                   = true) by (vm_compute; reflexivity).
  apply takes_spec in Htakes as [Hfree Hmax].
  destruct (Hacc Hfree Hmax) as (x_adv & pe' & Hrun & Hp & Hs & _).
  exists x_adv, pe'. split; [exact Hrun|]. split; [exact Hp|].
  rewrite Hs. vm_compute. reflexivity.
Defined.

(** The same decode with a generator that delivers the same letter at
    every draw gives both new sections the name "aaaaaaaa": the builder
    refuses them, and the decode raises after recording the names. *)
Example colliding_names_raise :
  let self := init [[1; 2; 3; 4]; [5; 6]] true Codec.zero_tape in
  let pe := {| sections := [{| name := ".text"; content := [195] |}];
               headers := [77; 90] |} in
  apply_feasible_manipulations Codec.parse (Codec.build None) [1 # 2; 0]%Q
    (Codec.image pe) self
  = (Raise RebuildError, decoded self)
  /\ names_ (decoded self) = [["aaaaaaaa"; "aaaaaaaa"]%string].
Proof.
  intros self pe.
  rewrite (apply_outcome Codec.parse (Codec.build None) self
             [1 # 2; 0]%Q (Codec.image pe) pe (init_consistent _ _ _)
             (codec_image pe) eq_refl).
  split; vm_compute; reflexivity.
Qed.

(** So does a content over the maximum the builder is given. *)
Example oversized_content_raises :
  let self := init [[1; 2; 3; 4]; [5; 6]] true Codec.name_tape in
  let pe := {| sections := []; headers := [77; 90] |} in
  fst (apply_feasible_manipulations Codec.parse (Codec.build (Some 1%nat))
         [1 # 2; 0]%Q (Codec.image pe) self)
  = Raise RebuildError.
Proof.
  intros self pe.
  rewrite (apply_outcome Codec.parse (Codec.build (Some 1%nat)) self
             [1 # 2; 0]%Q (Codec.image pe) pe (init_consistent _ _ _)
             (codec_image pe) eq_refl).
  vm_compute. reflexivity.
Qed.

(** C1, as stated, fails: with the one corpus entry [1; 2] and the
    latent vector [0], nothing is taken (take_0 = 0), yet the decoded
    sample re-parses with one section more than the original, which has
    none: the count is 1, not 0 + 0. *)
Lemma empty_take_still_adds_a_section :
  let self := init [[1; 2]] true Codec.zero_tape in
  let t := [0%Q] in
  let pe := {| sections := []; headers := [77; 90] |} in
  Codec.parse (Codec.image pe) = Some pe
  /\ Forall unit_interval t
  /\ Gamma.take_count [1; 2] 0 = 0
  /\ (length (sections pe) + positive_takes (section_population self) t
      = 0)%nat
  /\ exists x_adv self' pe',
       apply_feasible_manipulations Codec.parse (Codec.build None) t
         (Codec.image pe) self
       = (Ok x_adv, self')
       /\ Codec.parse x_adv = Some pe'
       /\ sections pe' = [{| name := "aaaaaaaa"; content := [] |}]
       /\ length (sections pe') = 1%nat.
Proof.
  intros self t pe.
  split; [apply codec_image|].
  split; [unit_interval_literals|].
  split; [vm_compute; reflexivity|]. split; [vm_compute; reflexivity|].
  eexists; eexists; eexists. split.
  - rewrite (apply_fresh Codec.parse (Codec.build None) self t
               (Codec.image pe) pe eq_refl (codec_image pe) eq_refl eq_refl).
    vm_compute. reflexivity.
  - split; [vm_compute; reflexivity|]. split; reflexivity.
Qed.

End SectionDecode.

Module SectionNames.
Import Py PyM PyFacts GammaSections SectionSpec SectionFacts SectionDecode.







(** The position [argmin_from] returns is the first one that holds the
    least entry of the entries seen and to come. *)
Lemma argmin_from_first_min (l : list Q) :
  forall (pre : list Q) (best_i : nat) (best : Q),
    pre !! best_i = Some best ->
    (forall j v, pre !! j = Some v -> (best <= v)%Q) ->
    (forall j v, (j < best_i)%nat -> pre !! j = Some v -> (best < v)%Q) ->
    let k := argmin_from best_i best (length pre) l in
    exists m,
      (pre ++ l) !! k = Some m
      /\ (forall j v, (pre ++ l) !! j = Some v -> (m <= v)%Q)
      /\ (forall j v, (j < k)%nat -> (pre ++ l) !! j = Some v -> (m < v)%Q).
Proof.
  induction l as [|v l IH]; intros pre best_i best Hbi Hmin Hfirst; cbn.
  - rewrite app_nil_r. exists best. auto.
  - assert (Hlt : (best_i < length pre)%nat)
      by (eapply lookup_lt_Some; exact Hbi).
    replace (pre ++ v :: l) with ((pre ++ [v]) ++ l)
      by (rewrite <- app_assoc; reflexivity).
    replace (S (length pre)) with (length (pre ++ [v]))
      by (rewrite length_app; simpl; lia).
    destruct (Qle_bool best v) eqn:Hcmp.
    + apply Qle_bool_iff in Hcmp. apply IH.
      * rewrite lookup_app_l by exact Hlt. exact Hbi.
      * intros j w Hj. apply lookup_app_Some in Hj as [Hj|[Hge Hj]].
        -- eapply Hmin; exact Hj.
        -- apply list_lookup_singleton_Some in Hj as [_ <-]. exact Hcmp.
      * intros j w Hjk Hj. rewrite lookup_app_l in Hj by lia.
        eapply Hfirst; [exact Hjk|exact Hj].
    + assert (Hvb : (v < best)%Q).
      { apply Qnot_le_lt. intros Hle. apply Qle_bool_iff in Hle. congruence. }
      apply IH.
      * rewrite lookup_app_r by lia. rewrite Nat.sub_diag. reflexivity.
      * intros j w Hj. apply lookup_app_Some in Hj as [Hj|[Hge Hj]].
        -- apply Qlt_le_weak. eapply Qlt_le_trans; [exact Hvb|].
           eapply Hmin; exact Hj.
        -- apply list_lookup_singleton_Some in Hj as [_ <-]. apply Qle_refl.
      * intros j w Hjk Hj. rewrite lookup_app_l in Hj by lia.
        eapply Qlt_le_trans; [exact Hvb|]. eapply Hmin; exact Hj.
Qed.

Lemma argmin_first_min (v : Q) (l : list Q) :
  exists k m,
    argmin (v :: l) = Ok k
    /\ (v :: l) !! k = Some m
    /\ (forall j w, (v :: l) !! j = Some w -> (m <= w)%Q)
    /\ (forall j w, (j < k)%nat -> (v :: l) !! j = Some w -> (m < w)%Q).
Proof.
  destruct (argmin_from_first_min l [v] 0%nat v) as (m & Hk & Hmin & Hfirst).
  - reflexivity.
  - intros j w Hj. apply list_lookup_singleton_Some in Hj as [_ <-].
    apply Qle_refl.
  - intros j w Hj. lia.
  - exists (argmin_from 0 v 1 l), m. split; [reflexivity|].
    split; [exact Hk|]. split; [exact Hmin|exact Hfirst].
Qed.

(** C9. When the fitness history has entries behind index 0 and no
    more of them than name lists were recorded, the export hook returns
    the three histories and leaves in [best_names_] the name list
    recorded at position k, where k is the first position at which the
    fitness history without its index 0 takes its least value: the names
    of the candidate whose fitness is that minimum.  Nothing else of the
    object changes, and it stays consistent. *)
Theorem export_records_best_names (self : problem) (f0 : Q) (fs : list Q) :
  fitness_ self = f0 :: fs ->
  fs <> [] ->
  (length fs <= length (names_ self))%nat ->
  exists (k : nat) (m : Q) (names : list string),
    export_internal_results self
    = (Ok (confidences_ self, fitness_ self, sizes_ self),
       set_best_names_ names self)
    /\ best_names_ (snd (export_internal_results self)) = names
    /\ names_ self !! k = Some names
    /\ fs !! k = Some m
    /\ (forall j v, fs !! j = Some v -> (m <= v)%Q)
    /\ (forall j v, (j < k)%nat -> fs !! j = Some v -> (m < v)%Q)
    /\ (consistent self -> consistent (set_best_names_ names self)).
Proof.
  intros Hfit Hne Hlen. destruct fs as [|v l]; [contradiction|].
  destruct (argmin_first_min v l) as (k & m & Hk & Hm & Hmin & Hfirst).
  destruct (lookup_lt_is_Some_2 (names_ self) k) as [names Hnames].
  { apply lookup_lt_Some in Hm. lia. }
  assert (Hrun : export_internal_results self
                 = (Ok (confidences_ self, fitness_ self, sizes_ self),
                    set_best_names_ names self)).
  { unfold export_internal_results, bind, super_export_internal_results,
      get, lift, modify, ret, getitem.
    rewrite Hfit. cbn [drop]. rewrite Hk, Hnames. reflexivity. }
  exists k, m, names. split; [exact Hrun|].
  split; [rewrite Hrun; reflexivity|].
  split; [exact Hnames|]. split; [exact Hm|].
  split; [exact Hmin|]. split; [exact Hfirst|].
  intros [Hd Hn Hb]. split; cbn; [exact Hd|exact Hn|].
  right. eapply Forall_lookup_1 in Hn; [|exact Hnames]. exact Hn.
Qed.

Lemma export_records_best_names_witness :
  let self :=
    {| section_population := [[1; 2]];
       latent_space_size := 1;
       random_names := true;
       names_ := [["aaaaaaaa"]; ["bbbbbbbb"]; ["cccccccc"]]%string;
       best_names_ := [];
       confidences_ := [1; 9 # 10; 3 # 10; 3 # 10]%Q;
       fitness_ := [1 # 10; 9 # 10; 3 # 10; 3 # 10]%Q;
       sizes_ := [64; 66; 65; 66];
       random := Codec.zero_tape |} in
  best_names_ (snd (export_internal_results self)) = ["bbbbbbbb"%string].
Proof.
  intros self.
  destruct (export_records_best_names self (1 # 10)%Q
              [9 # 10; 3 # 10; 3 # 10]%Q eq_refl ltac:(discriminate)
              ltac:(cbn; lia))
    as (k & m & names & Hrun & Hbest & _).
  rewrite Hbest. vm_compute in Hrun. inversion Hrun. reflexivity.
Defined.

End SectionNames.

Module SectionFlag.
Import Py PyM GammaSections SectionSpec SectionFacts.

Lemma inject_section_blind (t : list Q) (i : nat)
    (locals : list string * option pe_edit) :
  flag_blind (inject_section t i locals).
Proof.
  intros b self.
  unfold inject_section, bind, get, lift, ret, raise.
  cbn [section_population best_names_ set_random_names].
  destruct (getitem (section_population self) i) as [c|e]; [|reflexivity].
  destruct (getitem t i) as [ti|e]; [|reflexivity].
  destruct (bool_decide (best_names_ self <> [])).
  - destruct (getitem (best_names_ self) i) as [nm|e]; [|reflexivity].
    destruct (snd locals); reflexivity.
  - rewrite !fresh_name_run. cbn [random set_random_names].
    destruct (snd locals); reflexivity.
Qed.

Lemma for_each_blind {A B : Type} (body : A -> B -> M problem B) :
  (forall a acc, flag_blind (body a acc)) ->
  forall (l : list A) (acc : B), flag_blind (for_each l body acc).
Proof.
  intros Hbody. induction l as [|a l IH]; intros acc b self.
  - reflexivity.
  - cbn [for_each]. unfold bind. rewrite (Hbody a acc b self).
    destruct (body a acc self) as [[acc'|e] self']; cbn [fst snd].
    + apply IH.
    + reflexivity.
Qed.

Lemma apply_feasible_manipulations_blind
    (parse : list Z -> option pe_binary) (build : pe_edit -> result (list Z))
    (t : list Q) (x : list Z) :
  flag_blind (apply_feasible_manipulations parse build t x).
Proof.
  intros b self.
  unfold apply_feasible_manipulations, bind at 1 3 5, get.
  cbn [latent_space_size set_random_names].
  unfold bind.
  rewrite (for_each_blind _ (inject_section_blind t) _ _ b self).
  destruct (for_each (range 0 (latent_space_size self)) (inject_section t)
              ([], opened <$> parse x) self) as [[locals|e] self'];
    cbn [fst snd].
  - unfold modify, lift, raise. destruct (snd locals); reflexivity.
  - reflexivity.
Qed.

(** C10. The [random_names] flag does not reach the decoder: on any
    object, with any latent vector and sample, and any parser and
    builder, decoding with the flag set and decoding with it cleared give
    the same outcome (the same sample, or the same exception) and leave
    objects that differ in the flag alone; so do objects constructed with
    either value of the flag. *)
Theorem random_names_flag_ignored
    (parse : list Z -> option pe_binary) (build : pe_edit -> result (list Z))
    (self : problem) (t : list Q) (x : list Z) :
  let on :=
    apply_feasible_manipulations parse build t x (set_random_names true self) in
  let off :=
    apply_feasible_manipulations parse build t x (set_random_names false self) in
  fst on = fst off
  /\ snd on = set_random_names true (snd off)
  /\ forall (pop : list (list Z)) (r : random_state),
       let on' :=
         apply_feasible_manipulations parse build t x (init pop true r) in
       let off' :=
         apply_feasible_manipulations parse build t x (init pop false r) in
       fst on' = fst off' /\ snd on' = set_random_names true (snd off').
Proof.
  assert (H : forall s : problem,
             let on := apply_feasible_manipulations parse build t x
                         (set_random_names true s) in
             let off := apply_feasible_manipulations parse build t x
                          (set_random_names false s) in
             fst on = fst off /\ snd on = set_random_names true (snd off)).
  { intros s on off. subst on off.
    rewrite (apply_feasible_manipulations_blind parse build t x true s).
    rewrite (apply_feasible_manipulations_blind parse build t x false s).
    cbn [fst snd]. split; [reflexivity|].
    destruct (snd (apply_feasible_manipulations parse build t x s));
      reflexivity. }
  intros on off. split; [apply H|]. split; [apply H|].
  intros pop r. apply (H (init pop false r)).
Qed.

End SectionFlag.

(** ** The range of the decoded entries *)

Module DecodeRange.
Import Py PyM PyFacts FloatFacts HeaderFacts GammaFacts ByteDecoders
       SectionSpec SectionFacts SectionDecode.





End DecodeRange.

(** * Further properties of the decoders *)

(** ** The header decoder: outcome, written offsets, composition *)

Module HeaderDecode.
Import Py PyM PyFacts FloatFacts HeaderFacts Header.

(** X1. The header decode returns exactly when the latent vector has a
    component for every offset to perturb and every such offset lies
    inside the sample; in every other case it raises [IndexError], and
    no other exception.  The dtype of the sample plays no part. *)
Theorem header_decode_outcome (dt : dtype)
    (self : Header.problem) (t : list Q) (x : list Z) :
  let fits :=
    (length (indexes_to_perturb self) <= length t)%nat
    /\ Forall (fun k => (k < length x)%nat) (indexes_to_perturb self) in
  (fits -> exists x_adv, apply_feasible_manipulations dt self t x = Ok x_adv)
  /\ (~ fits -> apply_feasible_manipulations dt self t x = Raise IndexError)
  /\ (forall e, apply_feasible_manipulations dt self t x = Raise e ->
                e = IndexError /\ ~ fits).
Proof.
  intros fits. unfold apply_feasible_manipulations.
  pose proof (perturb_outcome dt (byte_values t) (indexes_to_perturb self) x)
    as H.
  unfold byte_values in H at 1 2 3. rewrite length_map in H. exact H.
Qed.

(** X2. In every configuration the class can reach, the offsets to
    perturb are strictly increasing (so none occurs twice), none of them
    is below 2, and none is one of 60..63, where the pointer to the PE
    header is stored. *)
Theorem reachable_offsets_sorted_and_skip_pointer (self : Header.problem) :
  reachable self ->
  (forall (i j a b : nat),
     (i < j)%nat ->
     indexes_to_perturb self !! i = Some a ->
     indexes_to_perturb self !! j = Some b ->
     (a < b)%nat)
  /\ NoDup (indexes_to_perturb self)
  /\ forall k : nat,
       k ∈ indexes_to_perturb self ->
       (2 <= k < 60)%nat \/ (64 <= k)%nat.
Proof. apply reachable_offsets. Qed.

Lemma reachable_offsets_sorted_and_skip_pointer_witness :
  let x := replicate 60 0 ++ [66; 0; 0; 0] ++ replicate 8 7 in
  let self := snd (init_starting_point x (init true 256)) in
  NoDup (indexes_to_perturb self) /\ 60%nat ∉ indexes_to_perturb self.
Proof.
  intros x self.
  destruct (reachable_offsets_sorted_and_skip_pointer self
              (reach_start x _ (reach_init true 256)))
    as (_ & Hnd & Hmem).
  split; [exact Hnd|]. intros Hin. apply Hmem in Hin. lia.
Defined.

(** X3. In a reachable configuration a header decode that returns has
    put at the i-th offset to perturb, for every i, the i-th component
    scaled by 255 (a float64 product), truncated to an int64 and
    converted to the dtype of the sample: together with the frame
    property this fixes the whole result.  For a component of [0,1] and
    a dtype that has room for bytes, the value stored is the floor of the
    product. *)
Theorem header_decode_writes_components (dt : dtype)
    (self : Header.problem) (t : list Q) (x x_adv : list Z) :
  reachable self ->
  apply_feasible_manipulations dt self t x = Ok x_adv ->
  forall (i k : nat),
    indexes_to_perturb self !! i = Some k ->
    exists ti : Q,
      t !! i = Some ti
      /\ x_adv !! k = Some (cast dt (astype_int (fmul ti 255)))
      /\ (holds_bytes dt = true -> unit_interval ti ->
          x_adv !! k = Some (Qfloor (fmul ti 255))).
Proof.
  intros Hreach Hrun i k Hk.
  destruct (decode_writes dt self t x x_adv Hreach Hrun i k Hk)
    as (ti & Hti & Hw).
  exists ti. split; [exact Hti|]. split; [exact Hw|].
  intros Hdt Hu. rewrite Hw. f_equal.
  destruct (byte_value_unit ti Hu) as [Heq Hb].
  rewrite (cast_byte dt _ Hdt Hb). exact Heq.
Qed.

(** The components 1/2, 2 and the float nearest to 1/255 on a uint8
    sample: 127, then 510 kept modulo 256, then 1. *)
Lemma header_decode_writes_components_witness :
  let x := [77; 90] ++ replicate 62 7 in
  let t := [1 # 2; 2; 282578800148737 # 72057594037927936]%Q
           ++ replicate 55 1%Q in
  exists x_adv,
    apply_feasible_manipulations uint8 (init false 256) t x = Ok x_adv
    /\ x_adv !! 2%nat = Some 127 /\ x_adv !! 3%nat = Some 254
    /\ x_adv !! 4%nat = Some 1.
Proof.
  intros x t.
  destruct (proj1 (perturb_outcome uint8 (byte_values t)
                     (indexes_to_perturb (init false 256)) x))
    as [x_adv Hrun].
  { split; [vm_compute; lia|].
    apply list.Forall_forall. intros k Hk. apply elem_of_range in Hk.
    change (length x) with 64%nat. lia. }
  exists x_adv. split; [exact Hrun|].
  pose proof (header_decode_writes_components uint8 (init false 256) t x x_adv
                (reach_init false 256) Hrun) as Hw.
  split; [|split].
  - destruct (Hw 0%nat 2%nat eq_refl) as (ti & Hti & -> & _).
    inversion Hti; subst ti. vm_compute. reflexivity.
  - destruct (Hw 1%nat 3%nat eq_refl) as (ti & Hti & -> & _).
    inversion Hti; subst ti. vm_compute. reflexivity.
  - destruct (Hw 2%nat 4%nat eq_refl) as (ti & Hti & -> & _).
    inversion Hti; subst ti. vm_compute. reflexivity.
Defined.

(** X4. In a reachable configuration the latest latent vector wins:
    decoding [t'] on the result of decoding [t] gives what decoding [t']
    on the original sample gives, be it a sample or the exception; in
    particular decoding the same vector twice changes nothing more. *)
Theorem header_decode_overwrites (dt : dtype)
    (self : Header.problem) (t t' : list Q) (x x1 : list Z) :
  reachable self ->
  apply_feasible_manipulations dt self t x = Ok x1 ->
  apply_feasible_manipulations dt self t' x1
  = apply_feasible_manipulations dt self t' x
  /\ apply_feasible_manipulations dt self t x1 = Ok x1.
Proof.
  intros Hreach Hrun.
  assert (Hgen : forall u : list Q,
             apply_feasible_manipulations dt self u x1
             = apply_feasible_manipulations dt self u x).
  { intros u.
    destruct (reachable_offsets self Hreach) as (_ & Hnd & _).
    pose proof Hrun as Hrun0. unfold apply_feasible_manipulations in Hrun0.
    destruct (perturb_frame _ _ _ _ _ _ Hrun0) as [Hlen Hfr].
    unfold apply_feasible_manipulations.
    destruct (perturb_outcome dt (byte_values u) (indexes_to_perturb self) x)
      as (_ & _ & Herr).
    destruct (perturb_outcome dt (byte_values u) (indexes_to_perturb self) x1)
      as (Hok1 & Hko1 & _).
    cbv zeta in Herr, Hok1, Hko1. rewrite Hlen in Hok1, Hko1.
    destruct (perturb dt (byte_values u) 0 (indexes_to_perturb self) x)
      as [x2|e] eqn:Hx.
    - destruct (perturb_ok_bounds _ _ _ _ _ _ Hx) as [Hb1 Hb2].
      destruct Hok1 as [x3 Hx3]; [split; [lia|exact Hb2]|].
      rewrite Hx3. f_equal.
      destruct (perturb_frame _ _ _ _ _ _ Hx) as [Hl2 Hf2].
      destruct (perturb_frame _ _ _ _ _ _ Hx3) as [Hl3 Hf3].
      apply list_eq. intros k.
      destruct (decide (k ∈ indexes_to_perturb self)) as [Hin|Hout].
      + apply list_elem_of_lookup in Hin as [i Hi].
        rewrite (perturb_writes _ _ _ _ _ _ Hnd Hx i k Hi).
        rewrite (perturb_writes _ _ _ _ _ _ Hnd Hx3 i k Hi). reflexivity.
      + rewrite (Hf3 k Hout), (Hf2 k Hout), (Hfr k Hout). reflexivity.
    - destruct (Herr e eq_refl) as [-> Hnf]. apply Hko1. exact Hnf. }
  split; [apply Hgen|]. rewrite Hgen. exact Hrun.
Qed.

Lemma header_decode_overwrites_witness :
  let x := [77; 90] ++ replicate 62 7 in
  let t := replicate 58 (1 # 2)%Q in
  let t' := replicate 58 1%Q in
  let x1 := [77; 90] ++ replicate 58 127 ++ replicate 4 7 in
  apply_feasible_manipulations uint8 (init false 256) t' x1
  = Ok ([77; 90] ++ replicate 58 255 ++ replicate 4 7).
Proof.
  intros x t t' x1.
  assert (Hrun : apply_feasible_manipulations uint8 (init false 256) t x
                 = Ok x1)
    by (vm_compute; reflexivity).
  rewrite (proj1 (header_decode_overwrites uint8 (init false 256) t t' x x1
                    (reach_init false 256) Hrun)).
  vm_compute. reflexivity.
Defined.

Lemma row_slice_agree (x y : list Z) (a b : nat) :
  length x = length y ->
  (forall k : nat, (a <= k < b)%nat -> x !! k = y !! k) ->
  row_slice x a b = row_slice y a b.
Proof.
  intros Hlen Hag. unfold row_slice. apply list_eq. intros i.
  destruct (decide (i < b - a)%nat) as [Hi|Hi].
  - rewrite !lookup_take_lt, !lookup_drop by lia. apply Hag. lia.
  - rewrite !lookup_take_ge by lia. reflexivity.
Qed.

(** X5. In a reachable configuration a header decode that returns
    leaves the four entries at offsets 60..63 as they were, so the
    pointer to the PE header read from the adversarial sample is the one
    of the original, and [init_starting_point] behaves on the adversarial
    sample exactly as on the original. *)
Theorem header_decode_keeps_pointer (dt : dtype)
    (self : Header.problem) (t : list Q) (x x_adv : list Z) :
  reachable self ->
  apply_feasible_manipulations dt self t x = Ok x_adv ->
  row_slice x_adv 60 64 = row_slice x 60 64
  /\ read_pe_index x_adv = read_pe_index x
  /\ forall other : Header.problem,
       init_starting_point x_adv other = init_starting_point x other.
Proof.
  intros Hreach Hrun.
  destruct (reachable_offsets self Hreach) as (_ & _ & Hmem).
  unfold apply_feasible_manipulations in Hrun.
  destruct (perturb_frame _ _ _ _ _ _ Hrun) as [Hlen Hfr].
  assert (Hs : row_slice x_adv 60 64 = row_slice x 60 64).
  { apply row_slice_agree; [exact Hlen|].
    intros k Hk. apply Hfr. intros Hin. apply Hmem in Hin. lia. }
  assert (Hr : read_pe_index x_adv = read_pe_index x)
    by (unfold read_pe_index, getslice; rewrite Hs, Hlen; reflexivity).
  split; [exact Hs|]. split; [exact Hr|].
  intros other. rewrite !init_starting_point_unfold, Hr. reflexivity.
Qed.

Lemma header_decode_keeps_pointer_witness :
  let x := replicate 60 0 ++ [66; 0; 0; 0] ++ replicate 8 7 in
  let self := snd (init_starting_point x (init true 256)) in
  let t := replicate 60 1%Q in
  exists x_adv,
    apply_feasible_manipulations uint8 self t x = Ok x_adv
    /\ read_pe_index x_adv = Ok 66.
Proof.
  intros x self t.
  assert (Hrun : exists x_adv,
             apply_feasible_manipulations uint8 self t x = Ok x_adv)
    by (eexists; vm_compute; reflexivity).
  destruct Hrun as [x_adv Hrun]. exists x_adv. split; [exact Hrun|].
  destruct (header_decode_keeps_pointer uint8 self t x x_adv
              (reach_start x _ (reach_init true 256)) Hrun) as (_ & -> & _).
  vm_compute. reflexivity.
Defined.

End HeaderDecode.

(** ** The header problem: repeated and failed initialization *)

Module HeaderInit.
Import Py PyM PyFacts HeaderFacts Header.

Lemma read_pe_index_not_bytes (x : list Z) :
  (64 <= length x)%nat -> ~ Forall is_byte (row_slice x 60 64) ->
  read_pe_index x = Raise ValueError.
Proof.
  intros Hlen Hn. unfold read_pe_index, getslice.
  destruct (Nat.leb_spec 64 (length x)) as [_|Hlt]; [|lia].
  cbn [rbind]. unfold bytes.
  destruct (forallb is_byteb (row_slice x 60 64)) eqn:Hall; [|reflexivity].
  exfalso. apply Hn. apply list.Forall_forall. intros b Hb.
  apply list_elem_of_In in Hb.
  pose proof (proj1 (forallb_forall _ _) Hall b Hb) as Hbb.
  unfold is_byteb in Hbb. apply andb_true_iff in Hbb as [H0 H1].
  unfold is_byte. lia.
Qed.

Lemma read_pe_index_short (x : list Z) :
  (length x < 64)%nat -> read_pe_index x = Raise IndexError.
Proof.
  intros Hlen. unfold read_pe_index, getslice.
  destruct (Nat.leb_spec 64 (length x)) as [Hge|_]; [lia|reflexivity].
Qed.

(** X6. With [optimize_all_dos], [init_starting_point] raises on a
    sample of at least 64 entries whose offsets 60..63 do not all hold
    bytes ([ValueError]) and on a sample of fewer than 64 entries, which
    has no such offsets (the slice is refused: [IndexError] on a sample
    that ends before offset 60).  The failed call has already reset
    [indexes_to_perturb] to 2..59 but leaves [latent_space_size] at its
    previous value, so the two can disagree afterwards. *)
Theorem init_starting_point_rejects_sample
    (self : Header.problem) (x : list Z) :
  optimize_all_dos self = true ->
  ((64 <= length x)%nat -> ~ Forall is_byte (row_slice x 60 64) ->
   init_starting_point x self
   = (Raise ValueError, set_indexes_to_perturb (range 2 60) self))
  /\ ((length x <= 60)%nat ->
      init_starting_point x self
      = (Raise IndexError, set_indexes_to_perturb (range 2 60) self))
  /\ ((length x < 64)%nat ->
      exists e : exn,
        init_starting_point x self
        = (Raise e, set_indexes_to_perturb (range 2 60) self))
  /\ (forall e self',
        init_starting_point x self = (Raise e, self') ->
        indexes_to_perturb self' = range 2 60
        /\ latent_space_size self' = latent_space_size self).
Proof.
  intros Ho. rewrite init_starting_point_unfold, Ho.
  split; [|split; [|split]].
  - intros Hlen Hn. rewrite (read_pe_index_not_bytes x Hlen Hn). reflexivity.
  - intros Hlen. rewrite (read_pe_index_short x) by lia. reflexivity.
  - intros Hlen. exists IndexError.
    rewrite (read_pe_index_short x Hlen). reflexivity.
  - intros e self' H. destruct (read_pe_index x); inversion H; subst.
    split; reflexivity.
Qed.

(** An object initialized on a sample whose pointer is 128, then on a
    sample of two entries. *)
Lemma init_starting_point_rejects_sample_witness :
  let long := replicate 60 0 ++ [128; 0; 0; 0] ++ replicate 64 7 in
  let self := snd (init_starting_point long (init true 256)) in
  let self' := snd (init_starting_point [77; 90] self) in
  fst (init_starting_point [77; 90] self) = Raise IndexError
  /\ length (indexes_to_perturb self') = 58%nat
  /\ latent_space_size self' = 122%nat.
Proof.
  intros long self self'.
  assert (Ho : optimize_all_dos self = true) by reflexivity.
  destruct (init_starting_point_rejects_sample self [77; 90] Ho)
    as (_ & Hshort & _).
  assert (Hrun : init_starting_point [77; 90] self
                 = (Raise IndexError,
                    set_indexes_to_perturb (range 2 60) self)).
  { apply Hshort. simpl. lia. }
  unfold self'. rewrite Hrun. repeat split.
Defined.

(** X7. [init_starting_point] starts from 2..59 each time: its outcome
    and the offsets it leaves do not depend on the samples the object was
    initialized with before, and when it returns the whole object is the
    one a first initialization would have given. *)
Theorem init_starting_point_forgets_previous
    (self : Header.problem) (x y : list Z) :
  let again := init_starting_point x (snd (init_starting_point y self)) in
  let first := init_starting_point x self in
  fst again = fst first
  /\ indexes_to_perturb (snd again) = indexes_to_perturb (snd first)
  /\ (fst first = Ok tt -> snd again = snd first).
Proof.
  cbv zeta. rewrite !init_starting_point_unfold.
  destruct (optimize_all_dos self) eqn:Ho.
  - destruct (read_pe_index y) as [q|e];
      cbn [snd optimize_all_dos set_latent_space_size set_indexes_to_perturb];
      rewrite Ho;
      (destruct (read_pe_index x) as [p|e']; cbn;
       [repeat split|split; [reflexivity|]; split;
                     [reflexivity|intros H; discriminate]]).
  - cbn [snd optimize_all_dos set_latent_space_size set_indexes_to_perturb].
    rewrite Ho. repeat split.
Qed.

End HeaderInit.

(** ** The padding decoder: size and composition *)

Module PaddingMore.
Import Py Padding.

(** X8. For every latent vector, in the unit interval or not, the
    padding decode keeps the original sample as a prefix and appends one
    entry per component of the vector it is given (the configured number
    of padding bytes is not consulted); decoding a concatenation of two
    vectors is decoding the second on the result of the first. *)
Theorem padding_decode_grows_and_composes
    (self : Padding.problem) (t1 t2 : list Q) (x : list Z) :
  length (apply_feasible_manipulations self t1 x)
  = (length x + length t1)%nat
  /\ take (length x) (apply_feasible_manipulations self t1 x) = x
  /\ apply_feasible_manipulations self (t1 ++ t2) x
     = apply_feasible_manipulations self t2
         (apply_feasible_manipulations self t1 x).
Proof.
  unfold apply_feasible_manipulations, byte_values. split; [|split].
  - rewrite length_app, length_map. reflexivity.
  - apply take_app_length.
  - rewrite map_app, app_assoc. reflexivity.
Qed.

End PaddingMore.

(** ** The raw-append decoder: outcome and growth *)

Module GammaMore.
Import Py PyFacts FloatFacts GammaFacts Gamma.

Lemma append_loop_overrun (pop : list (list Z)) (t : list Q) :
  forall (n k : nat) (x : list Z),
    (k <= length pop)%nat ->
    (length pop < k + n)%nat -> (k + n <= length t)%nat ->
    append_loop pop t (seq k n) x = Raise IndexError.
Proof.
  induction n as [|n IH]; intros k x Hk Hp Ht; [lia|].
  simpl. unfold getitem.
  destruct (pop !! k) as [c|] eqn:Hc; simpl; [|reflexivity].
  destruct (lookup_lt_is_Some_2 t k ltac:(lia)) as [ti ->]. simpl.
  apply lookup_lt_Some in Hc. apply IH; lia.
Qed.


Lemma content_to_append_le (content : list Z) (ti : Q) :
  (length (content_to_append content ti) <= length content)%nat.
Proof.
  unfold content_to_append, slice_to.
  destruct (0 <=? take_count content ti); rewrite length_take; lia.
Qed.

Lemma appended_le (pop : list (list Z)) :
  forall t : list Q,
    (length (concat (zip_with content_to_append pop t))
     <= sum_list (map length pop))%nat.
Proof.
  induction pop as [|c pop IH]; intros [|ti t]; simpl; try lia.
  rewrite length_app. pose proof (content_to_append_le c ti).
  pose proof (IH t). lia.
Qed.

Lemma take_count_ge_one (content : list Z) (ti : Q) :
  float_len content -> (1 <= ti)%Q ->
  Z.of_nat (length content) <= take_count content ti.
Proof.
  unfold float_len. intros Hlen H. unfold take_count.
  apply take_ge_one; [lia|exact H].
Qed.

Lemma take_count_zero (content : list Z) (ti : Q) :
  (ti == 0)%Q -> take_count content ti = 0.
Proof.
  intros H. unfold take_count. rewrite (fmul_zero_r _ ti H). reflexivity.
Qed.

(** X10. Whatever the latent vector, a raw-append decode that returns
    keeps the original sample as a prefix and adds at most
    [payload_max_size] entries, the size of the whole corpus.  A vector
    of d components that are all at least 1 appends the whole corpus (the
    lengths of its contents being float64 values, as those of all lists
    are); a vector of zeros appends nothing. *)
Theorem raw_append_growth_bounded
    (section_population : list (list Z)) (t : list Q) (x x_adv : list Z) :
  let self := Gamma.init section_population in
  apply_feasible_manipulations self t x = Ok x_adv ->
  take (length x) x_adv = x
  /\ (length x <= length x_adv <= length x + payload_max_size self)%nat
  /\ (length t = length section_population ->
      Forall float_len section_population ->
      Forall (fun ti => (1 <= ti)%Q) t ->
      x_adv = x ++ concat section_population)
  /\ (Forall (fun ti => (ti == 0)%Q) t -> x_adv = x).
Proof.
  intros self Hrun.
  destruct (le_lt_dec (length t) (length section_population)) as [Hle|Hgt].
  2: { unfold apply_feasible_manipulations, range in Hrun.
       rewrite append_loop_overrun in Hrun by (cbn; lia). discriminate. }
  rewrite (apply_feasible_manipulations_eq self t x Hle) in Hrun.
  inversion Hrun; subst x_adv. clear Hrun.
  cbn [Gamma.section_population self init payload_max_size].
  split; [apply take_app_length|]. split; [|split].
  - rewrite length_app. pose proof (appended_le section_population t). lia.
  - intros Hlen Hfl Hone. f_equal. f_equal. clear Hle. revert t Hlen Hone.
    induction Hfl as [|c pop Hc _ IH]; intros [|ti t] Hlen Hone;
      simpl in *; try reflexivity; try discriminate.
    apply list.Forall_cons in Hone as [Hti Hone].
    rewrite (IH t ltac:(lia) Hone). f_equal.
    pose proof (take_count_ge_one c ti Hc Hti) as Hge.
    rewrite content_to_append_prefix by lia.
    apply take_ge. lia.
  - intros Hz. rewrite <- (app_nil_r x) at 2. f_equal. clear Hle.
    revert t Hz.
    induction section_population as [|c pop IH]; intros [|ti t] Hz;
      simpl; try reflexivity.
    apply list.Forall_cons in Hz as [Hti Hz].
    rewrite (IH t Hz), app_nil_r.
    rewrite content_to_append_prefix by (rewrite take_count_zero; [lia|exact Hti]).
    rewrite take_count_zero by exact Hti. reflexivity.
Qed.

Lemma raw_append_growth_bounded_witness :
  let pop := [[1; 2; 3; 4]; [5; 6]] in
  Gamma.apply_feasible_manipulations (Gamma.init pop) [3 # 2; -1 # 2]%Q
    [77; 90]
  = Ok [77; 90; 1; 2; 3; 4; 5]
  /\ (7 <= 2 + payload_max_size (Gamma.init pop))%nat.
Proof.
  intros pop.
  assert (Hrun : Gamma.apply_feasible_manipulations (Gamma.init pop)
                   [3 # 2; -1 # 2]%Q [77; 90]
                 = Ok [77; 90; 1; 2; 3; 4; 5]) by (vm_compute; reflexivity).
  split; [exact Hrun|].
  exact (proj2 (proj1 (proj2 (raw_append_growth_bounded pop _ _ _ Hrun)))).
Defined.

End GammaMore.

Module GammaNegative.
Import Py PyFacts FloatFacts GammaFacts Gamma.

Lemma take_count_opp (content : list Z) (ti : Q) :
  take_count content (- ti) = - take_count content ti.
Proof.
  unfold take_count. rewrite <- round_Qopp. apply round_Qeq.
  apply fmul_opp_r.
Qed.

(** X11. Outside the unit interval the take is no longer a length: a
    component whose take is negative is used as a Python slice bound, so
    the decoder appends the content without its last entries, as many as
    the opposite component would have taken, and not the empty prefix. *)
Theorem negative_component_cuts_the_end (content : list Z) (ti : Q) :
  take_count content ti < 0 ->
  content_to_append content ti
  = take (length content - length (content_to_append content (- ti))) content
  /\ - take_count content ti = take_count content (- ti).
Proof.
  intros Hneg. rewrite take_count_opp. split; [|reflexivity].
  rewrite (content_to_append_prefix content (- ti))
    by (rewrite take_count_opp; lia).
  rewrite take_count_opp, length_take.
  unfold content_to_append, slice_to.
  destruct (Z.leb_spec 0 (take_count content ti)); [lia|].
  f_equal. lia.
Qed.

Lemma negative_component_cuts_the_end_witness :
  content_to_append [1; 2; 3; 4; 5] (-1 # 4) = [1; 2; 3; 4]
  /\ content_to_append [1; 2; 3; 4; 5] (1 # 4) = [1].
Proof.
  split; [|vm_compute; reflexivity].
  rewrite (proj1 (negative_component_cuts_the_end [1; 2; 3; 4; 5] (-1 # 4)
                    ltac:(vm_compute; reflexivity))).
  vm_compute. reflexivity.
Defined.

End GammaNegative.

(** ** The registered-section decoder: names and failures *)

Module SectionMore.
Import Py PyM PyFacts GammaSections SectionSpec SectionFacts SectionDecode
       SectionNames.










End SectionMore.

(** ** The export hook and the restart of a run *)

Module SectionExport.
Import Py PyM PyFacts GammaSections SectionSpec SectionFacts SectionDecode
       SectionNames.

(** X15. The export hook raises without touching the object when
    there is nothing to choose from: [ValueError] when each history holds
    its baseline entry and nothing else; [IndexError] when the three
    histories are parallel and the position of the least fitness has no
    recorded name list (as on an object whose decodes have all failed
    before recording their names). *)
Theorem export_without_history_raises (self : problem) :
  (length (confidences_ self) = 1%nat ->
   length (fitness_ self) = 1%nat ->
   length (sizes_ self) = 1%nat ->
   export_internal_results self = (Raise ValueError, self))
  /\ (forall k : nat,
        length (confidences_ self) = length (fitness_ self) ->
        length (sizes_ self) = length (fitness_ self) ->
        argmin (drop 1 (fitness_ self)) = Ok k ->
        (length (names_ self) <= k)%nat ->
        export_internal_results self = (Raise IndexError, self)).
Proof.
  split.
  - intros _ Hlen _.
    unfold export_internal_results, bind, super_export_internal_results,
      get, lift.
    destruct (fitness_ self) as [|f0 [|f1 fs]]; simpl in *; try reflexivity;
      discriminate.
  - intros k _ _ Hk Hlen.
    unfold export_internal_results, bind, super_export_internal_results,
      get, lift, getitem.
    rewrite Hk. rewrite (proj2 (lookup_ge_None _ _) Hlen). reflexivity.
Qed.

(** An object that has only its baseline entries, and one whose second
    candidate is the best of three while only one name list has been
    recorded. *)
Lemma export_without_history_raises_witness :
  let history (c : list Q) (s : list Z) (n : list (list string)) :=
    {| section_population := [[1; 2]];
       latent_space_size := 1;
       random_names := true;
       names_ := n;
       best_names_ := [];
       confidences_ := c;
       fitness_ := c;
       sizes_ := s;
       random := Codec.zero_tape |} in
  let baseline := history [1%Q] [64] [] in
  let unnamed :=
    history [1; 1 # 2; 1 # 4; 1 # 3]%Q [64; 66; 66; 65] [["aaaaaaaa"%string]] in
  export_internal_results baseline = (Raise ValueError, baseline)
  /\ export_internal_results unnamed = (Raise IndexError, unnamed).
Proof.
  intros history baseline unnamed. split.
  - apply (proj1 (export_without_history_raises baseline)); reflexivity.
  - apply (proj2 (export_without_history_raises unnamed) 1%nat);
      [reflexivity|reflexivity|reflexivity|cbn; lia].
Defined.

(** X16. An export that returns changes nothing but [best_names_], and
    exporting again right away returns the same histories and leaves the
    object as the first export left it. *)
Theorem export_is_idempotent (self self' : problem)
    (r : list Q * list Q * list Z) :
  export_internal_results self = (Ok r, self') ->
  self' = set_best_names_ (best_names_ self') self
  /\ r = (confidences_ self, fitness_ self, sizes_ self)
  /\ export_internal_results self' = (Ok r, self').
Proof.
  intros Hrun.
  unfold export_internal_results, bind, super_export_internal_results,
    get, lift, modify, ret in *.
  destruct (argmin (drop 1 (fitness_ self))) as [k|e] eqn:Hk;
    [|discriminate].
  destruct (getitem (names_ self) k) as [names|e] eqn:Hn; [|discriminate].
  inversion Hrun; subst r self'. clear Hrun.
  cbn [fitness_ names_ confidences_ sizes_ best_names_ set_best_names_].
  rewrite Hk, Hn. repeat split.
Qed.

Lemma export_is_idempotent_witness :
  let self :=
    {| section_population := [[1; 2]];
       latent_space_size := 1;
       random_names := true;
       names_ := [["aaaaaaaa"]; ["bbbbbbbb"]]%string;
       best_names_ := [];
       confidences_ := [1; 1 # 2; 1 # 4]%Q;
       fitness_ := [1; 1 # 2; 1 # 4]%Q;
       sizes_ := [64; 66; 66];
       random := Codec.zero_tape |} in
  let self' := snd (export_internal_results self) in
  best_names_ self' = ["bbbbbbbb"%string]
  /\ export_internal_results self' = export_internal_results self.
Proof.
  intros self self'.
  assert (Hrun : export_internal_results self
                 = (Ok (confidences_ self, fitness_ self, sizes_ self), self'))
    by reflexivity.
  split; [reflexivity|].
  rewrite Hrun. exact (proj2 (proj2 (export_is_idempotent _ _ _ Hrun))).
Defined.


(** A base initializer that raises leaves the name lists as they are. *)
Lemma init_starting_point_raises
    (super_init_starting_point : list Z -> M problem (list Z))
    (self self1 : problem) (x0 : list Z) (e : exn) :
  super_init_starting_point x0 self = (Raise e, self1) ->
  init_starting_point super_init_starting_point x0 self = (Raise e, self1).
Proof.
  intros Hbase. unfold init_starting_point, bind. rewrite Hbase. reflexivity.
Qed.


End SectionExport.

(** ** Harvesting the section population *)

Module PopulationFacts.
Import GammaSections Population PopulationSpec.

Lemma extend_nil (h : harvest) (path filename : string) :
  extend h path filename [] = h.
Proof.
  destruct h. unfold extend. cbn.
  rewrite !app_nil_r, Z.add_0_r. reflexivity.
Qed.

Lemma extend_extend (h : harvest) (path filename : string)
    (l1 l2 : list pe_section) :
  extend (extend h path filename l1) path filename l2
  = extend h path filename (l1 ++ l2).
Proof.
  unfold extend. cbn. rewrite !fmap_app, !app_assoc, length_app.
  f_equal. lia.
Qed.

Lemma harvest_section_kept (ste : list string) (slb : option Z)
    (path filename : string) (h : harvest) (s : pe_section) :
  harvest_section ste slb path filename h s
  = if kept ste slb s then extend h path filename [s] else h.
Proof.
  unfold harvest_section, kept.
  destruct (bool_decide (name s ∈ ste)); [|reflexivity].
  destruct (match truthy_int slb with
            | Some b => Z.of_nat (length (content s)) <? b
            | None => false
            end); [reflexivity|].
  destruct (length (content s) =? 0)%nat; reflexivity.
Qed.

(** The loop over the sections of one file harvests the kept ones. *)
Lemma foldl_harvest_section (ste : list string) (slb : option Z)
    (path filename : string) (l : list pe_section) :
  forall h : harvest,
    foldl (harvest_section ste slb path filename) h l
    = extend h path filename (filter (fun s => kept ste slb s = true) l).
Proof.
  induction l as [|s l IH]; intros h.
  - cbn. rewrite extend_nil. reflexivity.
  - cbn [foldl]. rewrite IH, harvest_section_kept.
    destruct (kept ste slb s) eqn:Hk.
    + rewrite filter_cons_True by exact Hk.
      rewrite extend_extend. reflexivity.
    + rewrite filter_cons_False by congruence. reflexivity.
Qed.

Lemma kept_harvested (w : world) (folder : string) (ste : list string)
    (slb : option Z) (filename description : string) (pe : pe_binary)
    (s : pe_section) :
  magic_from_file w (path_join folder filename) = Some description ->
  contains "PE" description = true ->
  lief_parse w (path_join folder filename) = Some pe ->
  s ∈ sections pe ->
  kept ste slb s = true ->
  harvested_from w folder ste slb (view_of (path_join folder filename) s)
    (name s, filename).
Proof.
  intros Hm Hpe Hp Hs Hk.
  exists description, pe, s. cbn. repeat split; assumption.
Qed.

(** What the pair tells of a view that was harvested. *)
Lemma harvested_recorded (w : world) (folder : string) (ste : list string)
    (slb : option Z) (c : content_view) (e : string * string) :
  harvested_from w folder ste slb c e -> recorded_from w folder ste slb c e.
Proof.
  intros (d & pe & s & Hm & Hpe & Hp & Hs & Hn & Hk & ->).
  unfold kept in Hk.
  apply andb_true_iff in Hk as [Hk Hlen].
  apply andb_true_iff in Hk as [Hname Hsize].
  apply bool_decide_eq_true_1 in Hname.
  apply negb_true_iff in Hlen, Hsize. apply Nat.eqb_neq in Hlen.
  split; [rewrite <- Hn; exact Hname|]. split; [reflexivity|].
  cbn [shown view_of]. split; [lia|]. split.
  - intros b Hb. rewrite Hb in Hsize. lia.
  - exists d, pe, s. repeat split; assumption.
Qed.

(** What the loop over the files keeps true of the harvest. *)
Lemma harvest_files_invariant (w : world) (folder : string) (how_many : Z)
    (ste : list string) (slb : option Z) (files : list string) :
  forall h h' : harvest,
    harvest_files w folder how_many ste slb files h = Return h' ->
    Forall2 (harvested_from w folder ste slb)
      (section_population h) (what_from_who h) ->
    Forall2 (harvested_from w folder ste slb)
      (section_population h') (what_from_who h').
Proof.
  induction files as [|f rest IH]; intros h h' Hrun Hinv; cbn in Hrun.
  - inversion Hrun; subst. exact Hinv.
  - destruct (magic_from_file w (path_join folder f)) as [d|] eqn:Hm;
      [|discriminate].
    destruct (contains "PE" d) eqn:Hpe; cbn in Hrun;
      [|eapply IH; [exact Hrun|exact Hinv]].
    destruct (lief_parse w (path_join folder f)) as [pe|] eqn:Hp;
      [|discriminate].
    rewrite foldl_harvest_section in Hrun.
    assert (Hext : Forall2 (harvested_from w folder ste slb)
                     (section_population
                        (extend h (path_join folder f) f
                           (filter (fun s => kept ste slb s = true)
                              (sections pe))))
                     (what_from_who
                        (extend h (path_join folder f) f
                           (filter (fun s => kept ste slb s = true)
                              (sections pe))))).
    { cbn. apply Forall2_app; [exact Hinv|].
      apply Forall2_fmap. apply Forall_Forall2_diag.
      apply list.Forall_forall. intros s Hs.
      apply list_elem_of_filter in Hs as [Hk Hs].
      eapply kept_harvested; eassumption. }
    destruct (how_many <=? _) in Hrun.
    + inversion Hrun; subst. exact Hext.
    + eapply IH; [exact Hrun|exact Hext].
Qed.

End PopulationFacts.

Module PopulationClaims.
Import GammaSections Population PopulationSpec PopulationFacts.

(** Unfolding of [create_section_population_from_folder] on a run that
    returns. *)
Lemma from_folder_returns (w w' : world) (folder : string) (how_many : Z)
    (ste : option (list string)) (cache_file : option string)
    (slb : option Z) (population : list content_view)
    (pairs : list (string * string)) :
  create_section_population_from_folder w folder how_many ste cache_file slb
  = (Return (population, pairs), w') ->
  exists (files : list string) (h : harvest),
    file_to_consider w folder cache_file = Return files
    /\ harvest_files w folder how_many (default [".data"%string] ste) slb files
         {| section_population := []; what_from_who := []; counter := 0 |}
       = Return h
    /\ population = Py.slice_to (section_population h) how_many
    /\ pairs = what_from_who h
    /\ w' = match truthy_string cache_file with
            | Some c =>
                match pickles w !! c with
                | None => set_pickles (<[c := what_from_who h]> (pickles w)) w
                | Some _ => w
                end
            | None => w
            end.
Proof.
  unfold create_section_population_from_folder. intros Hrun.
  destruct (file_to_consider w folder cache_file) as [files|e];
    [|discriminate].
  destruct (harvest_files _ _ _ _ _ files _) as [h|e] eqn:Hh; [|discriminate].
  inversion Hrun; subst. exists files, h. repeat split. exact Hh.
Qed.

Lemma slice_to_take {A : Type} (l : list A) (k : Z) :
  exists n : nat, Py.slice_to l k = take n l.
Proof. unfold Py.slice_to. destruct (0 <=? k); eexists; reflexivity. Qed.

Lemma take_min_length {A : Type} (l : list A) (n : nat) :
  take (n `min` length l) l = take n l.
Proof.
  destruct (le_lt_dec n (length l)) as [Hle|Hgt].
  - rewrite Nat.min_l by lia. reflexivity.
  - rewrite Nat.min_r by lia. rewrite !take_ge by lia. reflexivity.
Qed.

(** The views returned were harvested, and how many there are. *)
Lemma from_folder_harvested (w w' : world) (folder : string) (how_many : Z)
    (ste : option (list string)) (cache_file : option string)
    (slb : option Z) (population : list content_view)
    (pairs : list (string * string)) :
  create_section_population_from_folder w folder how_many ste cache_file slb
  = (Return (population, pairs), w') ->
  Forall2 (harvested_from w folder (default [".data"%string] ste) slb)
    population (take (length population) pairs)
  /\ (length population <= length pairs)%nat
  /\ (0 <= how_many ->
      length population = Nat.min (Z.to_nat how_many) (length pairs)).
Proof.
  intros Hrun.
  destruct (from_folder_returns _ _ _ _ _ _ _ _ _ Hrun)
    as (files & h & _ & Hh & -> & -> & _).
  pose proof (harvest_files_invariant _ _ _ _ _ _ _ _ Hh
                (Forall2_nil_2 _ _ _)) as Hinv.
  pose proof (Forall2_length _ _ _ Hinv) as Hlen.
  destruct (slice_to_take (section_population h) how_many) as [n Hn].
  rewrite Hn. split; [|split].
  - rewrite length_take.
    replace (take (n `min` length (section_population h)) (what_from_who h))
      with (take n (what_from_who h)).
    + apply Forall2_take. exact Hinv.
    + rewrite Hlen. symmetry. apply take_min_length.
  - rewrite length_take. lia.
  - intros H0. rewrite <- Hn. unfold Py.slice_to.
    destruct (Z.leb_spec 0 how_many); [|lia].
    rewrite length_take. lia.
Qed.

(** X18. Of every entry of the population that
    [create_section_population_from_folder] returns, the pair recorded at
    the same position tells where it comes from: the name of the pair
    was asked for; the file of the pair is in the folder, libmagic
    describes it as a PE, lief parses it, and the entry is a view of its
    buffer; the file has a section of that name whose length is the
    length of the entry, which is not 0 and not below a non-zero lower
    bound.  (What the entry lets read once the binary is gone is not
    stated.)  The population is cut to [how_many] entries, the list of
    pairs is not. *)
Theorem harvest_provenance (w w' : world) (folder : string) (how_many : Z)
    (ste : option (list string)) (cache_file : option string)
    (slb : option Z) (population : list content_view)
    (pairs : list (string * string)) :
  create_section_population_from_folder w folder how_many ste cache_file slb
  = (Return (population, pairs), w') ->
  Forall2 (recorded_from w folder (default [".data"%string] ste) slb)
    population (take (length population) pairs)
  /\ (length population <= length pairs)%nat
  /\ (0 <= how_many ->
      length population = Nat.min (Z.to_nat how_many) (length pairs)).
Proof.
  intros Hrun.
  destruct (from_folder_harvested _ _ _ _ _ _ _ _ _ Hrun) as (Hh & Hl & Hm).
  split; [|split; assumption].
  eapply Forall2_impl; [exact Hh|]. intros c e. apply harvested_recorded.
Qed.

Lemma harvest_provenance_witness :
  let population :=
    [{| owner := "goodware/a.exe"; shown := [3; 4; 5] |};
     {| owner := "goodware/b.exe"; shown := [6] |}]%string in
  let pairs := [(".data", "a.exe"); (".data", "b.exe")]%string in
  create_section_population_from_folder goodware "goodware" 2 None None None
  = (Return (population, pairs), goodware)
  /\ Forall2 (recorded_from goodware "goodware" [".data"%string] None)
       population pairs.
Proof.
  intros population pairs.
  assert (Hrun : create_section_population_from_folder goodware "goodware" 2
                   None None None
                 = (Return (population, pairs), goodware)) by reflexivity.
  split; [exact Hrun|].
  exact (proj1 (harvest_provenance _ _ _ _ _ _ _ _ _ Hrun)).
Defined.

Lemma filter_no_such_name (n : string) (l : list pe_section) :
  n ∉ name <$> l -> filter (fun s => name s = n) l = [].
Proof.
  induction l as [|s l IH]; intros Hn; [reflexivity|].
  cbn in Hn. apply not_elem_of_cons in Hn as [Hne Hn].
  rewrite filter_cons_False by congruence. apply IH. exact Hn.
Qed.

Lemma filter_unique_name (l : list pe_section) (s : pe_section) :
  NoDup (name <$> l) -> s ∈ l ->
  filter (fun s' => name s' = name s) l = [s].
Proof.
  induction l as [|s' l IH]; intros Hnd Hs; [inversion Hs|].
  cbn in Hnd. apply list.NoDup_cons in Hnd as [Hnotin Hnd].
  apply list.elem_of_cons in Hs as [->|Hs].
  - rewrite filter_cons_True by reflexivity.
    rewrite (filter_no_such_name _ _ Hnotin). reflexivity.
  - rewrite filter_cons_False.
    + apply IH; assumption.
    + intros Heq. apply Hnotin. rewrite Heq.
      apply list_elem_of_fmap. exists s. split; [reflexivity|exact Hs].
Qed.

Lemma collect_from_list_harvested (w : world) (folder : string)
    (ste : list string) (slb : option Z) :
  distinct_section_names w folder ->
  forall (full : list content_view) (pairs : list (string * string)),
    Forall2 (harvested_from w folder ste slb) full pairs ->
    forall acc : list content_view,
      collect_from_list w folder pairs acc = Return (acc ++ full).
Proof.
  intros Hdist full pairs Hall.
  induction Hall as [|c [n f] full pairs Hc _ IH]; intros acc.
  - cbn. rewrite app_nil_r. reflexivity.
  - destruct Hc as (d & pe & s & _ & _ & Hp & Hs & Hn & _ & Hcont).
    cbn in Hp, Hn, Hcont. cbn [collect_from_list]. cbv zeta. rewrite Hp.
    assert (Hone : sections_named n (path_join folder f) pe = [c]).
    { unfold sections_named. subst n c.
      rewrite (filter_unique_name _ _ (Hdist f pe Hp) Hs). reflexivity. }
    rewrite Hone, IH, <- app_assoc. reflexivity.
Qed.

Lemma collect_from_list_world (w w' : world) (folder : string) :
  lief_parse w' = lief_parse w ->
  forall (pairs : list (string * string)) (acc : list content_view),
    collect_from_list w' folder pairs acc
    = collect_from_list w folder pairs acc.
Proof.
  intros Hp. induction pairs as [|[what who] rest IH]; intros acc;
    [reflexivity|].
  cbn [collect_from_list]. rewrite Hp.
  destruct (lief_parse w (path_join folder who)); [apply IH|reflexivity].
Qed.

(** X19. When no file of the folder has two sections of the same
    name, the pairs that [create_section_population_from_folder] returns
    are enough to rebuild the harvest:
    [create_section_population_from_list] on them returns views of the
    sections that were harvested, in order, of which the returned
    population is the part that [how_many] lets through. *)
Theorem from_list_rebuilds_harvest (w w' : world) (folder : string)
    (how_many : Z) (ste : option (list string)) (cache_file : option string)
    (slb : option Z) (population : list content_view)
    (pairs : list (string * string)) :
  distinct_section_names w folder ->
  create_section_population_from_folder w folder how_many ste cache_file slb
  = (Return (population, pairs), w') ->
  exists full : list content_view,
    create_section_population_from_list w' folder pairs = Return full
    /\ population = Py.slice_to full how_many
    /\ length full = length pairs.
Proof.
  intros Hdist Hrun.
  destruct (from_folder_returns _ _ _ _ _ _ _ _ _ Hrun)
    as (files & h & _ & Hh & -> & -> & ->).
  pose proof (harvest_files_invariant _ _ _ _ _ _ _ _ Hh
                (Forall2_nil_2 _ _ _)) as Hinv.
  exists (section_population h). split; [|split].
  - unfold create_section_population_from_list.
    rewrite (collect_from_list_world w).
    + apply (collect_from_list_harvested w folder _ _ Hdist _ _ Hinv []).
    + destruct (truthy_string cache_file) as [c|]; [|reflexivity].
      destruct (pickles w !! c); reflexivity.
  - reflexivity.
  - eapply Forall2_length. exact Hinv.
Qed.

Lemma goodware_distinct_section_names :
  distinct_section_names goodware "goodware".
Proof.
  intros f pe Hp. unfold goodware in Hp. cbn in Hp.
  destruct (String.eqb _ _).
  - inversion Hp; subst. cbn. apply NoDup_cons_2.
    { apply not_elem_of_cons; split; [discriminate|apply not_elem_of_nil]. }
    apply NoDup_cons_2; [apply not_elem_of_nil|apply NoDup_nil_2].
  - destruct (String.eqb _ _); [|discriminate].
    inversion Hp; subst. cbn. apply NoDup_cons_2.
    { apply not_elem_of_cons; split; [discriminate|apply not_elem_of_nil]. }
    apply NoDup_cons_2; [apply not_elem_of_nil|apply NoDup_nil_2].
Qed.

Lemma from_list_rebuilds_harvest_witness :
  create_section_population_from_list goodware "goodware"
    [(".data", "a.exe"); (".data", "b.exe")]%string
  = Return goodware_views.
Proof.
  assert (Hrun : create_section_population_from_folder goodware "goodware" 2
                   None None None
                 = (Return (goodware_views,
                            [(".data", "a.exe"); (".data", "b.exe")]%string),
                    goodware)) by reflexivity.
  destruct (from_list_rebuilds_harvest _ _ _ _ _ _ _ _ _
              goodware_distinct_section_names Hrun)
    as (full & Hfull & Hcut & Hlen).
  rewrite Hfull. f_equal. rewrite Hcut. unfold Py.slice_to. cbn.
  symmetry. apply take_ge. rewrite Hlen. cbn. lia.
Defined.

Lemma harvest_files_set_pickles (w : world)
    (p : gmap string (list (string * string))) (folder : string)
    (how_many : Z) (ste : list string) (slb : option Z) :
  forall (files : list string) (h : harvest),
    harvest_files (set_pickles p w) folder how_many ste slb files h
    = harvest_files w folder how_many ste slb files h.
Proof.
  induction files as [|f rest IH]; intros h; [reflexivity|].
  cbn [harvest_files set_pickles magic_from_file lief_parse].
  destruct (magic_from_file w (path_join folder f)) as [d|]; [|reflexivity].
  destruct (negb (contains "PE" d)); [apply IH|].
  destruct (lief_parse w (path_join folder f)) as [pe|]; [|reflexivity].
  destruct (how_many <=? _); [reflexivity|apply IH].
Qed.

(** The files named by the pairs a harvest has added lead a second
    harvest to the same result, when no file gives two sections. *)
Lemma harvest_files_replay (w : world) (folder : string) (how_many : Z)
    (ste : list string) (slb : option Z) :
  one_section_per_file w folder ste slb ->
  forall (files : list string) (h h' : harvest),
    harvest_files w folder how_many ste slb files h = Return h' ->
    exists ext : list (string * string),
      what_from_who h' = what_from_who h ++ ext
      /\ harvest_files w folder how_many ste slb (snd <$> ext) h = Return h'.
Proof.
  intros Hone. induction files as [|f rest IH]; intros h h' Hrun.
  - inversion Hrun; subst. exists []. rewrite app_nil_r. split; reflexivity.
  - cbn [harvest_files] in Hrun.
    destruct (magic_from_file w (path_join folder f)) as [d|] eqn:Hm;
      [|discriminate].
    destruct (contains "PE" d) eqn:Hpe; cbn [negb] in Hrun;
      [|apply IH; exact Hrun].
    destruct (lief_parse w (path_join folder f)) as [pe|] eqn:Hp;
      [|discriminate].
    rewrite foldl_harvest_section in Hrun.
    pose proof (Hone f pe Hp) as Hlen.
    destruct (filter (fun s => kept ste slb s = true) (sections pe))
      as [|s [|s2 K]] eqn:HK; cbn in Hlen; [| |lia].
    + rewrite extend_nil in Hrun.
      destruct (how_many <=? counter h) eqn:Hbreak.
      * inversion Hrun; subst. exists []. rewrite app_nil_r.
        split; reflexivity.
      * apply IH; exact Hrun.
    + assert (Hstep : forall tail : list string,
                 harvest_files w folder how_many ste slb (f :: tail) h
                 = if how_many <=? counter (extend h (path_join folder f) f [s])
                   then Return (extend h (path_join folder f) f [s])
                   else harvest_files w folder how_many ste slb tail
                          (extend h (path_join folder f) f [s])).
      { intros tail. cbn [harvest_files]. rewrite Hm, Hpe, Hp.
        cbn [negb]. rewrite foldl_harvest_section, HK. reflexivity. }
      destruct (how_many <=? counter (extend h (path_join folder f) f [s])) eqn:Hbreak.
      * inversion Hrun; subst. exists [(name s, f)].
        split; [reflexivity|].
        cbn [fmap list_fmap snd]. rewrite Hstep. reflexivity.
      * destruct (IH _ _ Hrun) as (ext & Hext & Hre).
        exists ((name s, f) :: ext). split.
        -- rewrite Hext. cbn. rewrite <- app_assoc. reflexivity.
        -- cbn [fmap list_fmap snd]. rewrite Hstep. exact Hre.
Qed.

(** X20. A run of [create_section_population_from_folder] that is
    given the name of a cache file that does not exist yet stores the
    pairs it returns under that name.  When no file of the folder has
    more than one section that is kept, running it again with the same
    arguments, now from the cache, returns the same population and the
    same pairs, and leaves the cache as it is. *)
Theorem cached_harvest_replays (w w' : world) (folder : string)
    (how_many : Z) (ste : option (list string)) (c : string)
    (slb : option Z) (population : list content_view)
    (pairs : list (string * string)) :
  c <> ""%string ->
  pickles w !! c = None ->
  one_section_per_file w folder (default [".data"%string] ste) slb ->
  create_section_population_from_folder w folder how_many ste (Some c) slb
  = (Return (population, pairs), w') ->
  pickles w' = <[c := pairs]> (pickles w)
  /\ create_section_population_from_folder w' folder how_many ste (Some c) slb
     = (Return (population, pairs), w').
Proof.
  intros Hc Hnone Hone Hrun.
  destruct (from_folder_returns _ _ _ _ _ _ _ _ _ Hrun)
    as (files & h & _ & Hh & -> & -> & ->).
  assert (Ht : truthy_string (Some c) = Some c).
  { unfold truthy_string. rewrite bool_decide_eq_false_2 by exact Hc.
    reflexivity. }
  rewrite Ht, Hnone. split; [reflexivity|].
  destruct (harvest_files_replay w folder how_many _ slb Hone _ _ _ Hh)
    as (ext & Hext & Hre).
  cbn [what_from_who app] in Hext. subst ext.
  unfold create_section_population_from_folder, file_to_consider.
  rewrite Ht. cbn [mbind option_bind pickles set_pickles].
  rewrite lookup_insert_eq.
  rewrite harvest_files_set_pickles, Hre.
  reflexivity.
Qed.

Lemma cached_harvest_replays_witness :
  let w' := set_pickles {["cache.pkl"%string
                          := [(".data", "a.exe"); (".data", "b.exe")]%string]}
              goodware in
  create_section_population_from_folder w' "goodware" 2 None
    (Some "cache.pkl"%string) None
  = (Return (goodware_views,
             [(".data", "a.exe"); (".data", "b.exe")]%string),
     w').
Proof.
  intros w'.
  assert (Hone : one_section_per_file goodware "goodware"
                   [".data"%string] None).
  { intros f pe Hp. unfold goodware in Hp. cbn in Hp.
    destruct (String.eqb _ _); [inversion Hp; subst; vm_compute; lia|].
    destruct (String.eqb _ _);
      [inversion Hp; subst; vm_compute; lia|discriminate]. }
  assert (Hrun : create_section_population_from_folder goodware "goodware" 2
                   None (Some "cache.pkl"%string) None
                 = (Return (goodware_views,
                            [(".data", "a.exe"); (".data", "b.exe")]%string),
                    w')).
  { unfold create_section_population_from_folder, file_to_consider.
    cbn [truthy_string bool_decide decide_rel]. reflexivity. }
  exact (proj2 (cached_harvest_replays goodware w' "goodware" 2 None
                  "cache.pkl" None _ _ ltac:(discriminate) eq_refl Hone Hrun)).
Defined.

Lemma harvest_files_world (w w2 : world) (folder : string) (how_many : Z)
    (ste : list string) (slb : option Z) :
  magic_from_file w2 = magic_from_file w ->
  lief_parse w2 = lief_parse w ->
  forall (files : list string) (h : harvest),
    harvest_files w2 folder how_many ste slb files h
    = harvest_files w folder how_many ste slb files h.
Proof.
  intros Hm Hp. induction files as [|f rest IH]; intros h; [reflexivity|].
  cbn [harvest_files]. rewrite Hm, Hp.
  destruct (magic_from_file w (path_join folder f)) as [d|]; [|reflexivity].
  destruct (negb (contains "PE" d)); [apply IH|].
  destruct (lief_parse w (path_join folder f)) as [pe|]; [|reflexivity].
  destruct (how_many <=? _); [reflexivity|apply IH].
Qed.

(** The counter counts the pairs. *)
Lemma harvest_files_counter (w : world) (folder : string) (how_many : Z)
    (ste : list string) (slb : option Z) (files : list string) :
  forall h h' : harvest,
    harvest_files w folder how_many ste slb files h = Return h' ->
    counter h = Z.of_nat (length (what_from_who h)) ->
    counter h' = Z.of_nat (length (what_from_who h')).
Proof.
  induction files as [|f rest IH]; intros h h' Hrun Hinv; cbn in Hrun.
  - inversion Hrun; subst. exact Hinv.
  - destruct (magic_from_file w (path_join folder f)) as [d|];
      [|discriminate].
    destruct (contains "PE" d); cbn in Hrun;
      [|eapply IH; [exact Hrun|exact Hinv]].
    destruct (lief_parse w (path_join folder f)) as [pe|]; [|discriminate].
    rewrite foldl_harvest_section in Hrun.
    assert (Hext : counter (extend h (path_join folder f) f (filter (fun s => kept ste slb s = true)
                                          (sections pe)))
                   = Z.of_nat
                       (length (what_from_who
                                  (extend h (path_join folder f) f
                                     (filter (fun s => kept ste slb s = true)
                                        (sections pe)))))).
    { cbn. rewrite length_app, length_fmap. lia. }
    destruct (how_many <=? _) in Hrun.
    + inversion Hrun; subst. exact Hext.
    + eapply IH; [exact Hrun|exact Hext].
Qed.

(** Once the count is reached the remaining files are not looked at. *)
Lemma harvest_files_stops (w : world) (folder : string) (how_many : Z)
    (ste : list string) (slb : option Z) (files1 files2 : list string) :
  forall h h' : harvest,
    harvest_files w folder how_many ste slb files1 h = Return h' ->
    counter h < how_many <= counter h' ->
    harvest_files w folder how_many ste slb (files1 ++ files2) h = Return h'.
Proof.
  induction files1 as [|f rest IH]; intros h h' Hrun Hcount.
  - inversion Hrun; subst. lia.
  - cbn [app harvest_files] in *.
    destruct (magic_from_file w (path_join folder f)) as [d|];
      [|discriminate].
    destruct (negb (contains "PE" d)); [apply IH; assumption|].
    destruct (lief_parse w (path_join folder f)) as [pe|]; [|discriminate].
    destruct (Z.leb_spec how_many
                (counter (foldl (harvest_section ste slb (path_join folder f) f) h (sections pe))))
      as [Hfull|Hnot].
    + exact Hrun.
    + apply IH; [exact Hrun|lia].
Qed.

(** X21. When the folder holds enough sections, the harvest stops at
    the file that completes the count: with [how_many] positive, no cache
    and a run that returns at least [how_many] pairs, the population has
    exactly [how_many] entries, and the same run returns the same on any
    machine whose folder lists further files after these, whatever they
    are, even files that could not be read. *)
Theorem harvest_stops_when_full (w w2 : world) (folder : string)
    (how_many : Z) (ste : option (list string)) (slb : option Z)
    (files1 files2 : list string) (population : list content_view)
    (pairs : list (string * string)) :
  listdir w folder = Some files1 ->
  0 < how_many <= Z.of_nat (length pairs) ->
  create_section_population_from_folder w folder how_many ste None slb
  = (Return (population, pairs), w) ->
  magic_from_file w2 = magic_from_file w ->
  lief_parse w2 = lief_parse w ->
  listdir w2 folder = Some (files1 ++ files2) ->
  Z.of_nat (length population) = how_many
  /\ create_section_population_from_folder w2 folder how_many ste None slb
     = (Return (population, pairs), w2).
Proof.
  intros Hls Hmany Hrun Hm Hp Hls2.
  pose proof (from_folder_harvested _ _ _ _ _ _ _ _ _ Hrun) as (_ & _ & Hlen).
  destruct (from_folder_returns _ _ _ _ _ _ _ _ _ Hrun)
    as (files & h & Hfiles & Hh & -> & -> & _).
  unfold file_to_consider in Hfiles. cbn in Hfiles. rewrite Hls in Hfiles.
  inversion Hfiles; subst files. clear Hfiles.
  split; [rewrite Hlen by lia; lia|].
  pose proof (harvest_files_counter _ _ _ _ _ _ _ _ Hh eq_refl) as Hcount.
  unfold create_section_population_from_folder, file_to_consider.
  cbn [truthy_string mbind option_bind]. rewrite Hls2.
  rewrite (harvest_files_world w w2 _ _ _ _ Hm Hp).
  rewrite (harvest_files_stops w folder how_many _ slb files1 files2 _ h Hh)
    by (cbn [counter]; lia).
  reflexivity.
Qed.

Lemma harvest_stops_when_full_witness :
  let w2 :=
    {| listdir := fun _ => Some ["a.exe"; "notes.txt"; "b.exe"; "gone.exe"]%string;
       magic_from_file := magic_from_file goodware;
       lief_parse := lief_parse goodware;
       pickles := ∅ |} in
  create_section_population_from_folder w2 "goodware" 2 None None None
  = (Return (goodware_views,
             [(".data", "a.exe"); (".data", "b.exe")]%string),
     w2).
Proof.
  intros w2.
  assert (Hrun : create_section_population_from_folder goodware "goodware" 2
                   None None None
                 = (Return (goodware_views,
                            [(".data", "a.exe"); (".data", "b.exe")]%string),
                    goodware)) by reflexivity.
  exact (proj2 (harvest_stops_when_full goodware w2 "goodware" 2 None None
                  ["a.exe"; "notes.txt"; "b.exe"]%string ["gone.exe"%string]
                  goodware_views
                  [(".data", "a.exe"); (".data", "b.exe")]%string
                  eq_refl ltac:(cbn; lia) Hrun eq_refl eq_refl eq_refl)).
Defined.

(** X23. [create_section_population_from_folder] never loses what is
    cached: whatever its arguments and its outcome, every cache file holds
    afterwards what it held before, a run that raises writes nothing at
    all, and nothing else of the machine is touched. *)
Theorem harvest_keeps_caches (w : world) (folder : string) (how_many : Z)
    (ste : option (list string)) (cache_file : option string)
    (slb : option Z) :
  let run := create_section_population_from_folder w folder how_many ste
               cache_file slb in
  pickles w ⊆ pickles run.2
  /\ listdir run.2 = listdir w
  /\ magic_from_file run.2 = magic_from_file w
  /\ lief_parse run.2 = lief_parse w
  /\ (forall e, run.1 = Throw e -> run.2 = w).
Proof.
  cbv zeta. unfold create_section_population_from_folder.
  destruct (file_to_consider w folder cache_file) as [files|e]; cbn [fst snd];
    [|repeat split; reflexivity].
  destruct (harvest_files _ _ _ _ _ files _) as [h|e]; cbn [fst snd];
    [|repeat split; reflexivity].
  destruct (truthy_string cache_file) as [c|];
    [|repeat split; try reflexivity; discriminate].
  destruct (pickles w !! c) eqn:Hc;
    [repeat split; try reflexivity; discriminate|].
  cbn [pickles listdir magic_from_file lief_parse set_pickles].
  repeat split; try discriminate.
  apply insert_subseteq. exact Hc.
Qed.

(** X22. [create_section_population_from_list] returns exactly when
    lief parses every file the pairs name; it then returns, pair after
    pair, views of the contents of all the sections of that name in that file
    (none for a name the file does not have, several when it has several);
    as soon as a file does not parse it raises [AttributeError]. *)
Theorem from_list_outcome (w : world) (folder : string)
    (pairs : list (string * string)) :
  (forall pes : list pe_binary,
     Forall2 (fun e pe => lief_parse w (path_join folder e.2) = Some pe)
       pairs pes ->
     create_section_population_from_list w folder pairs
     = Return (concat (zip_with (fun e pe => sections_named e.1 (path_join folder e.2) pe) pairs pes)))
  /\ (Exists (fun e => lief_parse w (path_join folder e.2) = None) pairs ->
      create_section_population_from_list w folder pairs
      = Throw AttributeError).
Proof.
  unfold create_section_population_from_list. split.
  - intros pes Hall.
    enough (H : forall acc,
               collect_from_list w folder pairs acc
               = Return (acc ++ concat (zip_with
                                          (fun e pe => sections_named e.1 (path_join folder e.2) pe)
                                          pairs pes)))
      by (apply (H [])).
    induction Hall as [|[what who] pe pairs pes Hp _ IH]; intros acc.
    + cbn. rewrite app_nil_r. reflexivity.
    + cbn in Hp. cbn [collect_from_list zip_with concat]. rewrite Hp, IH.
      rewrite <- app_assoc. reflexivity.
  - intros Hex. generalize (@nil content_view) as acc.
    induction pairs as [|[what who] rest IH]; intros acc;
      [inversion Hex|].
    cbn [collect_from_list].
    destruct (lief_parse w (path_join folder who)) as [pe|] eqn:Hp;
      [|reflexivity].
    apply IH. apply Exists_cons in Hex as [Hhd|Htl]; [|exact Htl].
    cbn in Hhd. congruence.
Qed.

End PopulationClaims.

